(** * Inventory tracker: stock adjustment, ledger, store adapter

    A shallow embedding of the TypeScript sources

      - [hooks/useLocalStorage.ts]  (the durable key-value store adapter),
      - [types.ts]                  (User, Product, Transaction),
      - [index.tsx]                 (the App handlers, the user registration
                                     form and the transaction history pager),

    followed by the properties of the stock-adjustment and ledger core.

    Conventions of the embedding.
      - A JavaScript [number] that the program uses as a count (quantity,
        amount, page number) is an integer of [Z]; [price], which is only
        copied, is a rational of [Q]. A sum of two counts is rounded as
        the double-precision addition rounds it ([Number_add]): it is exact
        up to 2^53 and goes to the nearest double, ties to even, beyond.
        The numbers are finite: a sum past the largest double is outside
        the embedding.
      - A JavaScript string is a [string]; its characters are read as code
        units below 256.
      - [crypto.randomUUID()] and [new Date().toISOString()] read two tapes
        of the [World]; every read advances the tape. Both calls succeed,
        and so does [localStorage.setItem] ([setValue] would swallow its
        exception after having set the state).
      - A handler runs against the state of the render that created it: the
        [stored] value captured by [setValue] is the rendered one, also when
        the handler calls the same setter twice. *)

From Stdlib Require Import ZArith QArith Qround Lia List String Ascii Bool.
From Stdlib Require Import Sorted Permutation.
From stdpp Require Import base option list gmap strings pretty.
Import ListNotations.

Local Open Scope string_scope.
Local Open Scope list_scope.
Local Open Scope Z_scope.

(** ** types.ts *)

Module User.
Record t := mk {
  id : string;
  fullName : string;
  email : string;
  createdAt : string
}.
End User.

Module Product.
Record t := mk {
  id : string;
  sku : string;
  name : string;
  price : Q;
  quantity : Z;
  lastUpdated : string
}.
End Product.

Inductive TransactionType := initial | increase | decrease.

Module Transaction.
Record t := mk {
  id : string;
  productId : string;
  sku : string;
  productName : string;
  type : TransactionType;
  amount : Z;
  timestamp : string
}.
End Transaction.

Definition TransactionType_eqb (a b : TransactionType) : bool :=
  match a, b with
  | initial, initial | increase, increase | decrease, decrease => true
  | _, _ => false
  end.

(** ** The runtime: browser storage, UUIDs and the clock *)

(** What [localStorage.setItem(key, JSON.stringify(v))] leaves under a key of
    the App: the text is represented by the collection it serialises. *)
Inductive Stored :=
| SUsers (l : list User.t)
| SProducts (l : list Product.t)
| STransactions (l : list Transaction.t).

Record World := mkWorld {
  uuid_tape : nat -> string;
  uuid_pos : nat;
  date_tape : nat -> string;
  date_pos : nat
}.

(** The three [useLocalStorage] cells of [App], the browser storage behind
    them and the runtime. *)
Record AppState := mkApp {
  users : list User.t;
  products : list Product.t;
  transactions : list Transaction.t;
  localStorage : gmap string Stored;
  world : World
}.

(** A handler is a computation over the pending state. *)
Definition M (A : Type) : Type := AppState -> A * AppState.

Definition ret {A} (a : A) : M A := fun s => (a, s).

Definition bind {A B} (m : M A) (k : A -> M B) : M B :=
  fun s => let (a, s') := m s in k a s'.

Notation "'do' x <- m ; k" := (bind m (fun x => k))
  (at level 10, x name, m at level 100, k at level 200).
Notation "m ;; k" := (bind m (fun _ => k))
  (at level 100, k at level 200, right associativity).

Definition modify (f : AppState -> AppState) : M unit := fun s => (tt, f s).

Fixpoint mapM {A B} (f : A -> M B) (l : list A) : M (list B) :=
  match l with
  | [] => ret []
  | a :: l' => do b <- f a; do bs <- mapM f l'; ret (b :: bs)
  end.

Definition set_world (w : World) (s : AppState) : AppState :=
  mkApp (users s) (products s) (transactions s) (localStorage s) w.

(** [crypto.randomUUID()] *)
Definition randomUUID : M string := fun s =>
  let w := world s in
  (uuid_tape w (uuid_pos w),
   set_world (mkWorld (uuid_tape w) (S (uuid_pos w)) (date_tape w) (date_pos w)) s).

(** [new Date().toISOString()] *)
Definition toISOString_now : M string := fun s =>
  let w := world s in
  (date_tape w (date_pos w),
   set_world (mkWorld (uuid_tape w) (uuid_pos w) (date_tape w) (S (date_pos w))) s).

(** [window.localStorage.setItem(key, JSON.stringify(toStore))]

    The write is taken to succeed. In the browser it can throw (quota,
    storage disabled); [setValue] catches that after [setStored] has run,
    and the storage then falls behind the state. Nothing below speaks of a
    storage whose writes fail. *)
Definition setItem (key : string) (v : Stored) (s : AppState) : AppState :=
  mkApp (users s) (products s) (transactions s)
        (<[key := v]> (localStorage s)) (world s).

(** ** hooks/useLocalStorage.ts: [setValue]

    [stored] is the value of the render that created the setter; the updater
    [value] is applied to it, the result becomes the state and is written to
    the storage. The updater may itself run effects (the one of
    [handleAdjustStock] does). *)
Definition setValue {T} (stored : T) (setStored : T -> AppState -> AppState)
    (key : string) (stringify : T -> Stored) (value : T -> M T) : M unit :=
  do toStore <- value stored;
  modify (setStored toStore);;
  modify (setItem key (stringify toStore)).

Definition setStored_users (v : list User.t) (s : AppState) : AppState :=
  mkApp v (products s) (transactions s) (localStorage s) (world s).
Definition setStored_products (v : list Product.t) (s : AppState) : AppState :=
  mkApp (users s) v (transactions s) (localStorage s) (world s).
Definition setStored_transactions (v : list Transaction.t) (s : AppState) : AppState :=
  mkApp (users s) (products s) v (localStorage s) (world s).

(** ** The runtime: addition of numbers

    The integers from -2^53 to 2^53 are doubles. A larger integer lies
    between two neighbouring doubles, which are multiples of a power of two
    (the unit in the last place of its 53-bit significand); it is rounded to
    the nearer one, and to the one with the even significand when it lies
    half-way. *)
Definition round_double (x : Z) : Z :=
  let a := Z.abs x in
  if a <=? 2 ^ 53 then x
  else
    let ulp := 2 ^ (Z.log2 a - 52) in
    let significand := a / ulp in
    let rest := a mod ulp in
    let rounded :=
      if 2 * rest <? ulp then significand
      else if ulp <? 2 * rest then significand + 1
      else if Z.even significand then significand
      else significand + 1 in
    Z.sgn x * (rounded * ulp).

(** [a + b] on numbers that hold integers. *)
Definition Number_add (a b : Z) : Z := round_double (a + b).

(** ** index.tsx: the App component *)

Section Render.
(** The state of the render whose handlers are running. *)
Variable rendered : AppState.

Definition setUsers := setValue (users rendered) setStored_users "users" SUsers.
Definition setProducts := setValue (products rendered) setStored_products "products" SProducts.
Definition setTransactions :=
  setValue (transactions rendered) setStored_transactions "transactions" STransactions.

Definition addTransaction (product : Product.t) (type : TransactionType) (amount : Z)
  : M unit :=
  do id <- randomUUID;
  do timestamp <- toISOString_now;
  let newTransaction :=
    Transaction.mk id (Product.id product) (Product.sku product) (Product.name product)
                   type (Z.abs amount) timestamp in
  setTransactions (fun prev => ret (newTransaction :: prev)).

Definition handleRegisterUser (fullName email : string) : M unit :=
  do id <- randomUUID;
  do createdAt <- toISOString_now;
  let newUser := User.mk id fullName email createdAt in
  setUsers (fun prev => ret (prev ++ [newUser])).

Definition handleRegisterProduct (sku name : string) (price : Q) (quantity : Z)
  : M unit :=
  do id <- randomUUID;
  do lastUpdated <- toISOString_now;
  let newProduct := Product.mk id sku name price quantity lastUpdated in
  setProducts (fun prev => ret (prev ++ [newProduct]));;
  addTransaction newProduct initial quantity.

Definition handleAdjustStock (productId : string) (amount : Z) : M unit :=
  setProducts (fun prevProducts =>
    mapM (fun p =>
      if String.eqb (Product.id p) productId then
        let newQuantity := Number_add (Product.quantity p) amount in
        if newQuantity <? 0 then ret p
        else
          do lastUpdated <- toISOString_now;
          let updatedProduct :=
            Product.mk (Product.id p) (Product.sku p) (Product.name p)
                       (Product.price p) newQuantity lastUpdated in
          addTransaction updatedProduct
            (if amount >? 0 then increase else decrease) amount;;
          ret updatedProduct
      else ret p) prevProducts).
End Render.

(** One user action: the handler of the current render runs to completion,
    then the component renders again with the pending state. *)
Definition dispatch (handler : AppState -> M unit) (st : AppState) : AppState :=
  snd (handler st st).

Definition registerProduct (sku name : string) (price : Q) (quantity : Z) :=
  dispatch (fun r => handleRegisterProduct r sku name price quantity).

Definition adjustStock (productId : string) (amount : Z) :=
  dispatch (fun r => handleAdjustStock r productId amount).

(** ** index.tsx: regular expressions

    [RegExp.prototype.test] for a pattern without flags that is anchored by
    [^] and [$] at its two ends: the whole string has to match. The matcher
    takes derivatives character by character. *)

Module RegExp.
Inductive t :=
| Never
| Empty
| Class (p : ascii -> bool)
| Seq (r1 r2 : t)
| Alt (r1 r2 : t)
| Star (r : t).

Fixpoint nullable (r : t) : bool :=
  match r with
  | Never => false
  | Empty => true
  | Class _ => false
  | Seq r1 r2 => nullable r1 && nullable r2
  | Alt r1 r2 => nullable r1 || nullable r2
  | Star _ => true
  end.

Fixpoint deriv (c : ascii) (r : t) : t :=
  match r with
  | Never => Never
  | Empty => Never
  | Class p => if p c then Empty else Never
  | Seq r1 r2 =>
      if nullable r1 then Alt (Seq (deriv c r1) r2) (deriv c r2)
      else Seq (deriv c r1) r2
  | Alt r1 r2 => Alt (deriv c r1) (deriv c r2)
  | Star r1 => Seq (deriv c r1) (Star r1)
  end.

Fixpoint matches (r : t) (s : list ascii) : bool :=
  match s with
  | [] => nullable r
  | c :: s' => matches (deriv c r) s'
  end.

(** [r+] *)
Definition plus (r : t) : t := Seq r (Star r).

(** a literal character *)
Definition chr (c : ascii) : t := Class (Ascii.eqb c).

(** [\s]: WhiteSpace and LineTerminator, among the code units below 256:
    TAB, LF, VT, FF, CR, SP and NBSP. *)
Definition is_space (c : ascii) : bool :=
  let n := nat_of_ascii c in
  ((9 <=? n)%nat && (n <=? 13)%nat) || (n =? 32)%nat || (n =? 160)%nat.

(** [\S] *)
Definition S_ : t := Class (fun c => negb (is_space c)).

(** [/^r$/.test(s)] *)
Definition test (r : t) (s : string) : bool :=
  matches r (list_ascii_of_string s).
End RegExp.

(** ** index.tsx: [UserRegistrationForm] *)

(** [/^\S+@\S+\.\S+$/] *)
Definition email_regexp : RegExp.t :=
  RegExp.Seq (RegExp.plus RegExp.S_)
    (RegExp.Seq (RegExp.chr "@")
       (RegExp.Seq (RegExp.plus RegExp.S_)
          (RegExp.Seq (RegExp.chr ".") (RegExp.plus RegExp.S_)))).

(** [!s] for a string [s]: only the empty string is falsy. *)
Definition not_string (s : string) : bool := String.eqb s "".

Module UserRegistrationForm.
(** The three [useState] cells of the form. *)
Record t := mk {
  fullName : string;
  email : string;
  error : string
}.

Definition setError (msg : string) (f : t) : t := mk (fullName f) (email f) msg.

(** [handleSubmit], with [onRegisterUser] bound to [handleRegisterUser] as
    [App] passes it down through [UserManagement]. *)
Definition handleSubmit (f : t) (app : AppState) : t * AppState :=
  if not_string (fullName f) || not_string (email f) then
    (setError "Both fields are required." f, app)
  else if negb (RegExp.test email_regexp (email f)) then
    (setError "Please enter a valid email address." f, app)
  else
    (mk "" "" "",
     dispatch (fun r => handleRegisterUser r (fullName f) (email f)) app).
End UserRegistrationForm.

(** [registerUser(fullName, email)]: the form is filled in (its last error, if
    any, is still shown) and submitted. The outcome is the error message shown
    afterwards, empty when the user was registered, with the App's state. *)
Definition registerUser (fullName email : string) (app : AppState) : string * AppState :=
  let (f, app') :=
    UserRegistrationForm.handleSubmit (UserRegistrationForm.mk fullName email "") app in
  (UserRegistrationForm.error f, app').

(** ** index.tsx: [TransactionHistory] *)

Definition ITEMS_PER_PAGE : Z := 10.

(** [Array.prototype.slice(start, end)] *)
Definition slice {A} (l : list A) (start end_ : Z) : list A :=
  let len := Z.of_nat (length l) in
  let k := if start <? 0 then Z.max (len + start) 0 else Z.min start len in
  let final := if end_ <? 0 then Z.max (len + end_) 0 else Z.min end_ len in
  let count := Z.max (final - k) 0 in
  take (Z.to_nat count) (drop (Z.to_nat k) l).

Module TransactionHistory.
Section Props.
Variable transactions : list Transaction.t.

(** [Math.ceil(transactions.length / ITEMS_PER_PAGE)] *)
Definition totalPages : Z :=
  Qceiling (inject_Z (Z.of_nat (length transactions)) / inject_Z ITEMS_PER_PAGE).

Definition currentTransactions (currentPage : Z) : list Transaction.t :=
  let startIndex := (currentPage - 1) * ITEMS_PER_PAGE in
  let endIndex := startIndex + ITEMS_PER_PAGE in
  slice transactions startIndex endIndex.

Definition handleNextPage (prev : Z) : Z := Z.min (prev + 1) totalPages.
Definition handlePrevPage (prev : Z) : Z := Z.max (prev - 1) 1.

(** The two buttons are rendered when [totalPages > 1]; "Previous" is
    disabled on page 1 and "Next" on the last page. A click on a button
    that is absent or disabled runs no handler. *)
Inductive Click := Previous | Next.

Definition click (c : Click) (currentPage : Z) : Z :=
  if totalPages >? 1 then
    match c with
    | Previous =>
        if currentPage =? 1 then currentPage else handlePrevPage currentPage
    | Next =>
        if currentPage =? totalPages then currentPage
        else handleNextPage currentPage
    end
  else currentPage.

(** [useState(1)], then the clicks in order. *)
Definition currentPage_after (clicks : list Click) : Z :=
  fold_left (fun page c => click c page) clicks 1.
End Props.
End TransactionHistory.

(** [listTransactions(page)]: the rows shown once the user has asked for page
    [page], which is done by pressing "Next" [page - 1] times on a freshly
    mounted history. *)
Definition listTransactions (transactions : list Transaction.t) (page : nat)
  : list Transaction.t :=
  TransactionHistory.currentTransactions transactions
    (TransactionHistory.currentPage_after transactions
       (repeat TransactionHistory.Next (page - 1))).


(** ** The runtime: [JSON.parse]

    The grammar of ECMA-404. The result is the syntax tree of the text: a
    number keeps its lexeme and a string the characters between its quotes
    (escape sequences are checked and kept as written). *)

#[local] Set Warnings "-register-all".
Inductive json :=
| JNull
| JBool (b : bool)
| JNumber (lexeme : string)
| JString (raw : string)
| JArray (elements : list json)
| JObject (members : list (string * json)).

Module JSON.
Definition quote : ascii := "034"%char.
Definition backslash : ascii := "092"%char.

Definition is_ws (c : ascii) : bool :=
  Ascii.eqb c " " || Ascii.eqb c "009" || Ascii.eqb c "010" || Ascii.eqb c "013".

Definition is_digit (c : ascii) : bool :=
  let n := nat_of_ascii c in ((48 <=? n) && (n <=? 57))%nat.

Definition is_hex (c : ascii) : bool :=
  let n := nat_of_ascii c in
  (((48 <=? n) && (n <=? 57)) || ((65 <=? n) && (n <=? 70)) || ((97 <=? n) && (n <=? 102)))%nat.

Definition is_simple_escape (c : ascii) : bool :=
  Ascii.eqb c quote || Ascii.eqb c backslash || Ascii.eqb c "/" || Ascii.eqb c "b"
  || Ascii.eqb c "f" || Ascii.eqb c "n" || Ascii.eqb c "r" || Ascii.eqb c "t".

Fixpoint skip_ws (l : list ascii) : list ascii :=
  match l with
  | c :: l' => if is_ws c then skip_ws l' else l
  | [] => []
  end.

(** The longest prefix of characters in the class, and the rest. *)
Fixpoint span (p : ascii -> bool) (l : list ascii) : list ascii * list ascii :=
  match l with
  | c :: l' => if p c then let (a, b) := span p l' in (c :: a, b) else ([], l)
  | [] => ([], [])
  end.

(** After the opening quote: the characters up to the closing quote, and
    what follows it. *)
Fixpoint scan_string (l : list ascii) : option (list ascii * list ascii) :=
  match l with
  | [] => None
  | c :: l1 =>
      if Ascii.eqb c quote then Some ([], l1)
      else if Ascii.eqb c backslash then
        match l1 with
        | e :: l2 =>
            if is_simple_escape e then
              match scan_string l2 with
              | Some (s, r) => Some (c :: e :: s, r)
              | None => None
              end
            else if Ascii.eqb e "u" then
              match l2 with
              | h1 :: h2 :: h3 :: h4 :: l3 =>
                  if is_hex h1 && is_hex h2 && is_hex h3 && is_hex h4 then
                    match scan_string l3 with
                    | Some (s, r) => Some (c :: e :: h1 :: h2 :: h3 :: h4 :: s, r)
                    | None => None
                    end
                  else None
              | _ => None
              end
            else None
        | [] => None
        end
      else if (nat_of_ascii c <? 32)%nat then None
      else
        match scan_string l1 with
        | Some (s, r) => Some (c :: s, r)
        | None => None
        end
  end.

(** A number: an optional minus; a zero, or a non-zero digit and digits; an
    optional fraction (a dot and at least one digit); an optional exponent
    (e or E, an optional sign, at least one digit). The lexeme and the rest. *)
Definition scan_number (l : list ascii) : option (list ascii * list ascii) :=
  let (sign, l1) :=
    match l with
    | c :: l' => if Ascii.eqb c "-" then ([c], l') else ([], l)
    | [] => ([], l)
    end in
  let int :=
    match l1 with
    | c :: l' =>
        if Ascii.eqb c "0" then Some ([c], l')
        else if is_digit c then let (ds, r) := span is_digit l' in Some (c :: ds, r)
        else None
    | [] => None
    end in
  match int with
  | None => None
  | Some (i, l2) =>
      let frac :=
        match l2 with
        | c :: l' =>
            if Ascii.eqb c "." then
              let (ds, r) := span is_digit l' in
              match ds with [] => None | _ => Some (c :: ds, r) end
            else Some ([], l2)
        | [] => Some ([], l2)
        end in
      match frac with
      | None => None
      | Some (f, l3) =>
          let exp :=
            match l3 with
            | c :: l' =>
                if Ascii.eqb c "e" || Ascii.eqb c "E" then
                  let (sg, l'') :=
                    match l' with
                    | s :: r => if Ascii.eqb s "+" || Ascii.eqb s "-" then ([s], r) else ([], l')
                    | [] => ([], l')
                    end in
                  let (ds, r) := span is_digit l'' in
                  match ds with [] => None | _ => Some (c :: sg ++ ds, r) end
                else Some ([], l3)
            | [] => Some ([], l3)
            end in
          match exp with
          | None => None
          | Some (e, l4) => Some (sign ++ i ++ f ++ e, l4)
          end
      end
  end.

(** [l] starts with the characters of [word]: what follows them. *)
Fixpoint literal (word l : list ascii) : option (list ascii) :=
  match word, l with
  | [], _ => Some l
  | w :: word', c :: l' => if Ascii.eqb w c then literal word' l' else None
  | _ :: _, [] => None
  end.

Fixpoint parse_value (fuel : nat) (l : list ascii) : option (json * list ascii) :=
  match fuel with
  | O => None
  | S n =>
      match skip_ws l with
      | [] => None
      | c :: r =>
          if Ascii.eqb c "{" then
            match skip_ws r with
            | c' :: r' =>
                if Ascii.eqb c' "}" then Some (JObject [], r')
                else
                  match parse_members n r with
                  | Some (ms, r'') => Some (JObject ms, r'')
                  | None => None
                  end
            | [] => None
            end
          else if Ascii.eqb c "[" then
            match skip_ws r with
            | c' :: r' =>
                if Ascii.eqb c' "]" then Some (JArray [], r')
                else
                  match parse_elements n r with
                  | Some (vs, r'') => Some (JArray vs, r'')
                  | None => None
                  end
            | [] => None
            end
          else if Ascii.eqb c quote then
            match scan_string r with
            | Some (s, r') => Some (JString (string_of_list_ascii s), r')
            | None => None
            end
          else if Ascii.eqb c "t" then
            option_map (pair (JBool true)) (literal (list_ascii_of_string "rue") r)
          else if Ascii.eqb c "f" then
            option_map (pair (JBool false)) (literal (list_ascii_of_string "alse") r)
          else if Ascii.eqb c "n" then
            option_map (pair JNull) (literal (list_ascii_of_string "ull") r)
          else
            match scan_number (c :: r) with
            | Some (s, r') => Some (JNumber (string_of_list_ascii s), r')
            | None => None
            end
      end
  end
with parse_elements (fuel : nat) (l : list ascii) : option (list json * list ascii) :=
  match fuel with
  | O => None
  | S n =>
      match parse_value n l with
      | Some (v, r) =>
          match skip_ws r with
          | c :: r' =>
              if Ascii.eqb c "," then
                match parse_elements n r' with
                | Some (vs, r'') => Some (v :: vs, r'')
                | None => None
                end
              else if Ascii.eqb c "]" then Some ([v], r')
              else None
          | [] => None
          end
      | None => None
      end
  end
with parse_members (fuel : nat) (l : list ascii)
  : option (list (string * json) * list ascii) :=
  match fuel with
  | O => None
  | S n =>
      match skip_ws l with
      | q :: r0 =>
          if Ascii.eqb q quote then
            match scan_string r0 with
            | Some (k, r1) =>
                match skip_ws r1 with
                | c :: r2 =>
                    if Ascii.eqb c ":" then
                      match parse_value n r2 with
                      | Some (v, r3) =>
                          let m := (string_of_list_ascii k, v) in
                          match skip_ws r3 with
                          | c' :: r4 =>
                              if Ascii.eqb c' "," then
                                match parse_members n r4 with
                                | Some (ms, r5) => Some (m :: ms, r5)
                                | None => None
                                end
                              else if Ascii.eqb c' "}" then Some ([m], r4)
                              else None
                          | [] => None
                          end
                      | None => None
                      end
                    else None
                | [] => None
                end
            | None => None
            end
          else None
      | [] => None
      end
  end.

(** [JSON.parse(text)]: [None] stands for the SyntaxError it throws. Twice
    the length of the text is fuel enough ([parse_fuel_enough] below). *)
Definition parse (text : string) : option json :=
  let l := list_ascii_of_string text in
  match parse_value (2 * length l + 2) l with
  | Some (v, r) => match skip_ws r with [] => Some v | _ :: _ => None end
  | None => None
  end.
End JSON.


(** ** hooks/useLocalStorage.ts: reading the storage

    [window.localStorage] holds texts. Reading it throws when the browser
    denies access to the storage. *)

Module Window.
Record t := mk {
  denied : bool;
  items : gmap string string
}.
End Window.

(** The completion of a JavaScript expression: a value, or an exception. *)
Inductive completion (A : Type) :=
| Normal (a : A)
| Throw.
Arguments Normal {A} a.
Arguments Throw {A}.

Definition and_then {A B} (c : completion A) (k : A -> completion B) : completion B :=
  match c with
  | Normal a => k a
  | Throw => Throw
  end.

(** [try { return c } catch { return handler }] *)
Definition try_catch {A} (c : completion A) (handler : A) : A :=
  match c with
  | Normal a => a
  | Throw => handler
  end.

(** [window.localStorage.getItem(key)]: [None] is JavaScript's [null]. *)
Definition getItem (w : Window.t) (key : string) : completion (option string) :=
  if Window.denied w then Throw else Normal (Window.items w !! key).

Definition JSON_parse (text : string) : completion json :=
  match JSON.parse text with
  | Some v => Normal v
  | None => Throw
  end.

Module useLocalStorage.
(** The initializer of [useState]:
    [item ? JSON.parse(item) : initialValue], where [null] and the empty
    string are falsy. *)
Definition initialState (w : Window.t) (key : string) (initialValue : json) : json :=
  try_catch
    (and_then (getItem w key) (fun item =>
       match item with
       | None => Normal initialValue
       | Some text =>
           if not_string text then Normal initialValue else JSON_parse text
       end))
    initialValue.

(** The effect run after mounting: [if (item) setStored(JSON.parse(item))],
    in a [try] whose [catch] is empty. The result is the state afterwards. *)
Definition mountEffect (w : Window.t) (key : string) (stored : json) : json :=
  try_catch
    (and_then (getItem w key) (fun item =>
       match item with
       | None => Normal stored
       | Some text =>
           if not_string text then Normal stored else JSON_parse text
       end))
    stored.

(** The value the hook hands to the component once it is mounted. *)
Definition load (w : Window.t) (key : string) (initialValue : json) : json :=
  mountEffect w key (initialState w key initialValue).
End useLocalStorage.

(** ** types.ts, read as layouts of stored values *)

(** [o[k]] on a parsed object: of two members with one key the later wins. *)
Fixpoint member (k : string) (ms : list (string * json)) : option json :=
  match ms with
  | [] => None
  | (k', v) :: ms' =>
      match member k ms' with
      | Some v' => Some v'
      | None => if String.eqb k k' then Some v else None
      end
  end.

Definition is_string (v : option json) : bool :=
  match v with Some (JString _) => true | _ => false end.

Definition is_number (v : option json) : bool :=
  match v with Some (JNumber _) => true | _ => false end.

Definition is_TransactionType (v : option json) : bool :=
  match v with
  | Some (JString s) =>
      String.eqb s "initial" || String.eqb s "increase" || String.eqb s "decrease"
  | _ => false
  end.

Definition is_User (v : json) : bool :=
  match v with
  | JObject ms =>
      is_string (member "id" ms) && is_string (member "fullName" ms)
      && is_string (member "email" ms) && is_string (member "createdAt" ms)
  | _ => false
  end.

Definition is_Product (v : json) : bool :=
  match v with
  | JObject ms =>
      is_string (member "id" ms) && is_string (member "sku" ms)
      && is_string (member "name" ms) && is_number (member "price" ms)
      && is_number (member "quantity" ms) && is_string (member "lastUpdated" ms)
  | _ => false
  end.

Definition is_Transaction (v : json) : bool :=
  match v with
  | JObject ms =>
      is_string (member "id" ms) && is_string (member "productId" ms)
      && is_string (member "sku" ms) && is_string (member "productName" ms)
      && is_TransactionType (member "type" ms) && is_number (member "amount" ms)
      && is_string (member "timestamp" ms)
  | _ => false
  end.

Definition is_array_of (is_record : json -> bool) (v : json) : bool :=
  match v with
  | JArray l => forallb is_record l
  | _ => false
  end.

(** The layout [App] expects under each of its three keys; under any other
    key nothing is expected. *)
Definition has_expected_layout (key : string) (v : json) : bool :=
  if String.eqb key "users" then is_array_of is_User v
  else if String.eqb key "products" then is_array_of is_Product v
  else if String.eqb key "transactions" then is_array_of is_Transaction v
  else true.


(** ** Vocabulary of the properties *)

(** [findProduct(id)]: the first product of the table with this id. *)
Definition findProduct (id : string) (table : list Product.t) : option Product.t :=
  List.find (fun p => String.eqb (Product.id p) id) table.

Definition product_ids (table : list Product.t) : list string :=
  Product.id <$> table.

Definition quantities_nonneg (table : list Product.t) : Prop :=
  Forall (fun p => 0 <= Product.quantity p) table.

(** An adjustment is accepted when its product exists and the new quantity
    is not negative. *)
Definition accepted (st : AppState) (productId : string) (delta : Z) : bool :=
  match findProduct productId (products st) with
  | Some p => negb (Product.quantity p + delta <? 0)
  | None => false
  end.

(** The entries of a ledger of a given type that reference a product. *)
Definition entries (ty : TransactionType) (productId : string)
    (ledger : list Transaction.t) : list Transaction.t :=
  List.filter (fun t => String.eqb (Transaction.productId t) productId
                   && TransactionType_eqb (Transaction.type t) ty) ledger.

(** How many [increase] and [decrease] entries reference a product. *)
Definition adjustment_entries (productId : string) (ledger : list Transaction.t) : nat :=
  (length (entries increase productId ledger)
   + length (entries decrease productId ledger))%nat.

Definition sum_amounts (l : list Transaction.t) : Z :=
  fold_right (fun t acc => Transaction.amount t + acc) 0 l.

(** A sequence of [adjustStock] calls, each one a product id and a delta. *)
Fixpoint adjustStock_all (calls : list (string * Z)) (st : AppState) : AppState :=
  match calls with
  | [] => st
  | (productId, delta) :: calls' => adjustStock_all calls' (adjustStock productId delta st)
  end.

(** The states after the first, the second, ... call. *)
Fixpoint states_after (calls : list (string * Z)) (st : AppState) : list AppState :=
  match calls with
  | [] => []
  | (productId, delta) :: calls' =>
      let st' := adjustStock productId delta st in
      st' :: states_after calls' st'
  end.

(** How many calls of the sequence were made on the product and accepted. *)
Fixpoint accepted_calls (productId : string) (calls : list (string * Z))
    (st : AppState) : nat :=
  match calls with
  | [] => 0%nat
  | (id, delta) :: calls' =>
      ((if String.eqb id productId && accepted st id delta then 1 else 0)
       + accepted_calls productId calls' (adjustStock id delta st))%nat
  end.

(** The operations of the core. *)
Inductive Command :=
| RegisterUser (fullName email : string)
| RegisterProduct (sku name : string) (price : Q) (quantity : Z)
| AdjustStock (productId : string) (delta : Z).

Definition exec (c : Command) (st : AppState) : AppState :=
  match c with
  | RegisterUser fullName email => snd (registerUser fullName email st)
  | RegisterProduct sku name price quantity => registerProduct sku name price quantity st
  | AdjustStock productId delta => adjustStock productId delta st
  end.

Definition run (cmds : list Command) (st : AppState) : AppState :=
  fold_left (fun s c => exec c s) cmds st.

(** The inputs [ProductRegistrationForm] lets through to [registerProduct]. *)
Definition valid_command (c : Command) : Prop :=
  match c with
  | RegisterProduct sku name price quantity =>
      sku <> "" /\ name <> "" /\ (0 < price)%Q /\ 0 <= quantity
  | _ => True
  end.

(** The state of a session that starts with nothing stored. *)
Definition empty_state (storage : gmap string Stored) (w : World) : AppState :=
  mkApp [] [] [] storage w.

(** [crypto.randomUUID()] never returns the same UUID twice. *)
Definition uuids_fresh (w : World) : Prop :=
  forall i j : nat, uuid_tape w i = uuid_tape w j -> i = j.

(** The email pattern in the words of the specification: a run of at least
    one non-whitespace character before an [@], and one after it that
    contains a dot. *)
Definition no_whitespace (s : list ascii) : Prop :=
  Forall (fun c => RegExp.is_space c = false) s.

Definition spec_email_pattern (email : string) : Prop :=
  exists before after : list ascii,
    list_ascii_of_string email = before ++ "@"%char :: after
    /\ before <> [] /\ no_whitespace before
    /\ after <> [] /\ no_whitespace after
    /\ In "."%char after.

(** The per-product step of [handleAdjustStock], without its effects. The
    rounded sum is negative exactly when the sum is ([Number_add_negative]). *)
Definition accepts (productId : string) (delta : Z) (p : Product.t) : bool :=
  String.eqb (Product.id p) productId && negb (Product.quantity p + delta <? 0).

Definition updatedProduct (p : Product.t) (delta : Z) (lastUpdated : string) : Product.t :=
  Product.mk (Product.id p) (Product.sku p) (Product.name p) (Product.price p)
             (Number_add (Product.quantity p) delta) lastUpdated.

(** The transaction [addTransaction] builds for a product. *)
Definition newTransaction (id : string) (p : Product.t) (ty : TransactionType)
    (amount : Z) (timestamp : string) : Transaction.t :=
  Transaction.mk id (Product.id p) (Product.sku p) (Product.name p)
                 ty (Z.abs amount) timestamp.

(** What one product may become in an [adjustStock] call. *)
Definition adjusted (productId : string) (delta : Z) (p p' : Product.t) : Prop :=
  Product.id p' = Product.id p /\ Product.sku p' = Product.sku p
  /\ Product.name p' = Product.name p /\ Product.price p' = Product.price p
  /\ (p' = p
      \/ (Product.id p = productId /\ 0 <= Product.quantity p + delta
          /\ Product.quantity p' = Number_add (Product.quantity p) delta)).

(** The callback [handleAdjustStock] maps over the product table. *)
Definition stock_step (rendered : AppState) (productId : string) (amount : Z)
  : Product.t -> M Product.t :=
  fun p =>
    if String.eqb (Product.id p) productId then
      let newQuantity := Number_add (Product.quantity p) amount in
      if newQuantity <? 0 then ret p
      else
        do lastUpdated <- toISOString_now;
        let updatedProduct :=
          Product.mk (Product.id p) (Product.sku p) (Product.name p)
                     (Product.price p) newQuantity lastUpdated in
        addTransaction rendered updatedProduct
          (if amount >? 0 then increase else decrease) amount;;
        ret updatedProduct
    else ret p.

(** The pending state once [stock_step] has accepted a product. *)
Definition after_accept (rendered s : AppState) (p : Product.t) (amount : Z) : AppState :=
  let w := world s in
  let p' := updatedProduct p amount (date_tape w (date_pos w)) in
  let tx := newTransaction (uuid_tape w (uuid_pos w)) p'
              (if amount >? 0 then increase else decrease) amount
              (date_tape w (S (date_pos w))) in
  mkApp (users s) (products s) (tx :: transactions rendered)
        (<["transactions" := STransactions (tx :: transactions rendered)]> (localStorage s))
        (mkWorld (uuid_tape w) (S (uuid_pos w)) (date_tape w) (S (S (date_pos w)))).

(** The state after an [adjustStock] call that changed no product: the
    table is written back to the storage as it was. *)
Definition rejected_state (st : AppState) : AppState :=
  mkApp (users st) (products st) (transactions st)
        (<["products" := SProducts (products st)]> (localStorage st)) (world st).

(** The state after an [adjustStock] call that changed the product [p]
    standing between [l1] and [l2] in the table. *)
Definition accepted_state (st : AppState) (l1 : list Product.t) (p : Product.t)
    (l2 : list Product.t) (amount : Z) : AppState :=
  let w := world st in
  let p' := updatedProduct p amount (date_tape w (date_pos w)) in
  let tx := newTransaction (uuid_tape w (uuid_pos w)) p'
              (if amount >? 0 then increase else decrease) amount
              (date_tape w (S (date_pos w))) in
  mkApp (users st) (l1 ++ p' :: l2) (tx :: transactions st)
        (<["products" := SProducts (l1 ++ p' :: l2)]>
           (<["transactions" := STransactions (tx :: transactions st)]> (localStorage st)))
        (mkWorld (uuid_tape w) (S (uuid_pos w)) (date_tape w) (S (S (date_pos w)))).

(** The state after [registerProduct]. *)
Definition registered_state (st : AppState) (sku name : string) (price : Q)
    (quantity : Z) : AppState :=
  let w := world st in
  let newProduct :=
    Product.mk (uuid_tape w (uuid_pos w)) sku name price quantity
               (date_tape w (date_pos w)) in
  let tx := newTransaction (uuid_tape w (S (uuid_pos w))) newProduct initial quantity
              (date_tape w (S (date_pos w))) in
  mkApp (users st) (products st ++ [newProduct]) (tx :: transactions st)
        (<["transactions" := STransactions (tx :: transactions st)]>
           (<["products" := SProducts (products st ++ [newProduct])]> (localStorage st)))
        (mkWorld (uuid_tape w) (S (S (uuid_pos w))) (date_tape w) (S (S (date_pos w)))).

(** The state after [handleRegisterUser]. *)
Definition user_registered_state (st : AppState) (fullName email : string) : AppState :=
  let w := world st in
  let newUser :=
    User.mk (uuid_tape w (uuid_pos w)) fullName email (date_tape w (date_pos w)) in
  mkApp (users st ++ [newUser]) (products st) (transactions st)
        (<["users" := SUsers (users st ++ [newUser])]> (localStorage st))
        (mkWorld (uuid_tape w) (S (uuid_pos w)) (date_tape w) (S (date_pos w))).

(** The ledger reconstructs a product: one [initial] entry, and, as long as
    what the ledger records as coming in for the product stays within 2^53,
    where every sum of the handler is exact, the quantity is the amount of
    that entry plus the increases minus the decreases. *)
Definition reconstructs (ledger : list Transaction.t) (p : Product.t) : Prop :=
  length (entries initial (Product.id p) ledger) = 1%nat
  /\ (sum_amounts (entries initial (Product.id p) ledger)
      + sum_amounts (entries increase (Product.id p) ledger) <= 2 ^ 53 ->
      Product.quantity p
      = sum_amounts (entries initial (Product.id p) ledger)
        + sum_amounts (entries increase (Product.id p) ledger)
        - sum_amounts (entries decrease (Product.id p) ledger)).

(** What holds of every state reached from an empty one, for a tape of
    UUIDs that never repeats. *)
Definition ledger_consistent (tape : nat -> string) (st : AppState) : Prop :=
  uuid_tape (world st) = tape
  /\ NoDup (product_ids (products st))
  /\ Forall (fun p => exists i : nat,
               (i < uuid_pos (world st))%nat /\ Product.id p = tape i) (products st)
  /\ Forall (fun t => Transaction.productId t ∈ product_ids (products st))
            (transactions st)
  /\ Forall (reconstructs (transactions st)) (products st)
  /\ Forall (fun t => 0 <= Transaction.amount t) (transactions st).

(** The strings a regular expression denotes. *)
Inductive lang : RegExp.t -> list ascii -> Prop :=
| lang_Empty : lang RegExp.Empty []
| lang_Class p c : p c = true -> lang (RegExp.Class p) [c]
| lang_Seq r1 r2 s1 s2 :
    lang r1 s1 -> lang r2 s2 -> lang (RegExp.Seq r1 r2) (s1 ++ s2)
| lang_Alt_l r1 r2 s : lang r1 s -> lang (RegExp.Alt r1 r2) s
| lang_Alt_r r1 r2 s : lang r2 s -> lang (RegExp.Alt r1 r2) s
| lang_Star_nil r : lang (RegExp.Star r) []
| lang_Star_cons r s1 s2 :
    lang r s1 -> lang (RegExp.Star r) s2 -> lang (RegExp.Star r) (s1 ++ s2).

(** ** Sample data *)

(** A runtime whose n-th UUID and n-th clock reading spell out [n]. *)
Definition sample_world : World :=
  mkWorld (fun n => "uuid-" +:+ pretty n) 0 (fun n => "time-" +:+ pretty n) 0.

Definition widget : Product.t := Product.mk "p-1" "A1" "Widget" (999 # 100) 5 "t".
Definition gadget : Product.t := Product.mk "p-2" "B7" "Gadget" (5 # 2) 0 "t".

Definition sample_state : AppState :=
  mkApp [] [widget; gadget] [] ∅ sample_world.

(** The scenario of the specification: register a widget with quantity 3,
    add 2, then try to take 10. *)
Definition scenario : list Command :=
  [RegisterProduct "A1" "Widget" (999 # 100) 3;
   AdjustStock "uuid-0" 2;
   AdjustStock "uuid-0" (-10)].

(** A ledger of 25 transactions, numbered from 0. *)
Definition sample_ledger : list Transaction.t :=
  map (fun n => Transaction.mk (pretty n) "p-1" "A1" "Widget" increase 1 "t") (seq 0 25).

(** A storage whose "products" key holds a text that parses, to an object
    and not to an array of products. *)
Definition foreign_window : Window.t :=
  Window.mk false (<["products" := "{}"]> ∅).

(** A storage whose "products" key holds a text that does not parse. *)
Definition garbled_window : Window.t :=
  Window.mk false (<["products" := "[1,"]> ∅).

(** Five calls on the sample state: accepted, rejected, rejected, unknown
    id, accepted. *)
Definition sample_calls : list (string * Z) :=
  [("p-1", 2); ("p-1", -10); ("p-2", -1); ("none", 4); ("p-2", 3)].

(** ** Fuel of the JSON parser

    A successful parse with some fuel consumes at least one character, and
    succeeds again with any fuel from twice the consumed length on (one less
    suffices for a value). *)

Definition value_bound (m : nat) : Prop :=
  forall l v r, JSON.parse_value m l = Some (v, r) ->
    (length r < length l)%nat
    /\ forall n, (2 * (length l - length r) <= n + 1)%nat ->
                 JSON.parse_value n l = Some (v, r).

Definition elements_bound (m : nat) : Prop :=
  forall l vs r, JSON.parse_elements m l = Some (vs, r) ->
    (length r < length l)%nat
    /\ forall n, (2 * (length l - length r) <= n + 2)%nat ->
                 JSON.parse_elements n l = Some (vs, r).

Definition members_bound (m : nat) : Prop :=
  forall l ms r, JSON.parse_members m l = Some (ms, r) ->
    (length r < length l)%nat
    /\ forall n, (2 * (length l - length r) <= n + 2)%nat ->
                 JSON.parse_members n l = Some (ms, r).

(** ** index.tsx: [Dashboard] *)

(** [Array.prototype.sort(compareFn)] on a fresh array: the sort is stable,
    so for a consistent comparator the result is determined: ascending, the
    elements that compare equal in the order they had. Insertion from the
    right computes it. *)
Fixpoint sort_insert {A} (compareFn : A -> A -> Z) (x : A) (sorted : list A) : list A :=
  match sorted with
  | [] => [x]
  | y :: rest =>
      if compareFn x y <=? 0 then x :: y :: rest
      else y :: sort_insert compareFn x rest
  end.

Definition sort {A} (compareFn : A -> A -> Z) (l : list A) : list A :=
  fold_right (sort_insert compareFn) [] l.

Module Dashboard.
(** [LowStockProducts]: [lowStockItems]. *)
Definition lowStockItems (products : list Product.t) : list Product.t :=
  sort (fun a b => Product.quantity a - Product.quantity b)
       (List.filter (fun p => Product.quantity p <=? 5) products).

(** The card shown instead of the list: "All products are well-stocked!". *)
Definition well_stocked (products : list Product.t) : bool :=
  (length (lowStockItems products) =? 0)%nat.

(** [stats], without [inventoryValue], which is a sum of floating-point
    products. [reduce] runs from the left, adding numbers. *)
Definition totalProducts (products : list Product.t) : Z :=
  Z.of_nat (length products).

Definition totalUnits (products : list Product.t) : Z :=
  fold_left (fun sum p => Number_add sum (Product.quantity p)) products 0.

Definition totalUsers (users : list User.t) : Z :=
  Z.of_nat (length users).
End Dashboard.

(** ** index.tsx: [ProductList] *)

Module ProductList.
(** The two buttons of a row: the one with the minus sign calls
    [onAdjustStock(product.id, -1)] and is disabled when
    [product.quantity <= 0]; the one with the plus sign calls
    [onAdjustStock(product.id, 1)]. *)
Inductive Button := Minus | Plus.

Definition amount (b : Button) : Z :=
  match b with
  | Minus => -1
  | Plus => 1
  end.

Definition disabled (b : Button) (product : Product.t) : bool :=
  match b with
  | Minus => Product.quantity product <=? 0
  | Plus => false
  end.

(** A click on a button of the row at position [row] of the table; a row
    that is not there, or a disabled button, runs nothing. *)
Definition click (row : nat) (b : Button) (st : AppState) : AppState :=
  match products st !! row with
  | None => st
  | Some product =>
      if disabled b product then st
      else adjustStock (Product.id product) (amount b) st
  end.
End ProductList.

(** ** index.tsx: the rows of [TransactionHistory] *)

(** The amount as the Amount column shows it: a minus sign for [decrease],
    a plus sign for the two other types. *)
Definition shown_amount (tx : Transaction.t) : Z :=
  match Transaction.type tx with
  | decrease => - Transaction.amount tx
  | _ => Transaction.amount tx
  end.

(** The pages of the history, first to last. *)
Definition all_pages (transactions : list Transaction.t) : list (list Transaction.t) :=
  map (fun k => TransactionHistory.currentTransactions transactions (Z.of_nat k))
      (seq 1 (Z.to_nat (TransactionHistory.totalPages transactions))).

(** ** Vocabulary of the further properties *)

(** An email of the shape [a@b.c], the three parts not empty and the whole
    without whitespace. *)
Definition email_shape (email : list ascii) : Prop :=
  exists a b c : list ascii,
    email = a ++ "@"%char :: b ++ "."%char :: c
    /\ a <> [] /\ b <> [] /\ c <> []
    /\ no_whitespace a /\ no_whitespace b /\ no_whitespace c.

(** What the registration form lets into the users table. *)
Definition valid_user (u : User.t) : Prop :=
  User.fullName u <> ""
  /\ email_shape (list_ascii_of_string (User.email u)).

(** The ids of all the records of the three tables. *)
Definition all_ids (st : AppState) : list string :=
  (User.id <$> users st) ++ (Product.id <$> products st)
  ++ (Transaction.id <$> transactions st).

(** The sum of the amounts of a ledger as the history shows them. *)
Definition shown_total (ledger : list Transaction.t) : Z :=
  fold_right (fun tx acc => shown_amount tx + acc) 0 ledger.

(** The ids in a list have been issued: they are pairwise distinct and
    were read from the tape before the position [pos]. *)
Definition issued (tape : nat -> string) (pos : nat) (ids : list string) : Prop :=
  NoDup ids /\ forall id : string, id ∈ ids -> exists i : nat, (i < pos)%nat /\ id = tape i.

(** The quantities of a table added up as integers, and what a ledger
    records as coming in: the amounts of its [initial] and [increase]
    entries. *)
Definition exact_units (table : list Product.t) : Z :=
  fold_right (fun p acc => Product.quantity p + acc) 0 table.

Definition inflow (ledger : list Transaction.t) : Z :=
  fold_right (fun tx acc =>
                match Transaction.type tx with
                | decrease => acc
                | _ => Transaction.amount tx + acc
                end) 0 ledger.

(** What holds of the states reached from an empty one with valid input:
    the ledger reconstructs every product, no quantity is negative, and, as
    long as what the ledger records as coming in stays within 2^53, the
    quantities add up to the amounts the history shows. *)
Definition books_balance (tape : nat -> string) (st : AppState) : Prop :=
  ledger_consistent tape st
  /\ quantities_nonneg (products st)
  /\ (inflow (transactions st) <= 2 ^ 53 ->
      exact_units (products st) = shown_total (transactions st)).

(** How many commands of a sequence register a product, and how many are
    submissions the user form accepts. *)
Definition product_registrations (cmds : list Command) : nat :=
  length (List.filter (fun c => match c with RegisterProduct _ _ _ _ => true | _ => false end)
                      cmds).

Definition user_registrations (cmds : list Command) : nat :=
  length (List.filter (fun c => match c with
                                | RegisterUser fullName email =>
                                    negb (not_string fullName)
                                    && RegExp.test email_regexp email
                                | _ => false
                                end) cmds).

(** ** The runtime: [JSON.stringify], for tables whose records hold strings

    [QuoteJSONString] escapes the quote, the backslash and the control
    characters; objects and arrays are written without whitespace, the
    properties of an object in the order of their creation. *)

Module Stringify.
(** [QuoteJSONString], character by character. *)
Definition hex_digit (n : nat) : ascii :=
  if (n <? 10)%nat then ascii_of_nat (48 + n) else ascii_of_nat (87 + n).

Definition quote_char (c : ascii) : list ascii :=
  let n := nat_of_ascii c in
  if (n =? 8)%nat then [JSON.backslash; "b"%char]
  else if (n =? 9)%nat then [JSON.backslash; "t"%char]
  else if (n =? 10)%nat then [JSON.backslash; "n"%char]
  else if (n =? 12)%nat then [JSON.backslash; "f"%char]
  else if (n =? 13)%nat then [JSON.backslash; "r"%char]
  else if Ascii.eqb c JSON.quote then [JSON.backslash; JSON.quote]
  else if Ascii.eqb c JSON.backslash then [JSON.backslash; JSON.backslash]
  else if (n <? 32)%nat then
    [JSON.backslash; "u"%char; "0"%char; "0"%char;
     hex_digit (n / 16); hex_digit (n mod 16)]
  else [c].

Definition escape (s : string) : list ascii :=
  flat_map quote_char (list_ascii_of_string s).

Definition QuoteJSONString (s : string) : list ascii :=
  JSON.quote :: escape s ++ [JSON.quote].

(** [left.join(sep)] *)
Fixpoint join (sep : ascii) (parts : list (list ascii)) : list ascii :=
  match parts with
  | [] => []
  | [p] => p
  | p :: rest => p ++ sep :: join sep rest
  end.

(** A property whose value is a string. *)
Definition property (kv : string * string) : list ascii :=
  QuoteJSONString (fst kv) ++ ":"%char :: QuoteJSONString (snd kv).

(** An object whose properties are strings, in the order of creation. *)
Definition object (properties : list (string * string)) : list ascii :=
  "{"%char :: join "," (map property properties) ++ ["}"%char].

Definition array (elements : list (list ascii)) : list ascii :=
  "["%char :: join "," elements ++ ["]"%char].

Definition user (u : User.t) : list ascii :=
  object [("id", User.id u); ("fullName", User.fullName u);
          ("email", User.email u); ("createdAt", User.createdAt u)].

(** [JSON.stringify(users)] *)
Definition users (l : list User.t) : string :=
  string_of_list_ascii (array (map user l)).
End Stringify.

(** What [setValue] leaves in the storage for the users: the text of
    [JSON.stringify]; nothing when access to the storage is denied, the
    exception being swallowed. *)
Definition save_users (l : list User.t) (w : Window.t) : Window.t :=
  if Window.denied w then w
  else Window.mk false (<["users" := Stringify.users l]> (Window.items w)).

(** ** Reading a loaded value as users *)

Module Read.
Definition simple_escape_value (e : ascii) : option ascii :=
  if Ascii.eqb e JSON.quote then Some JSON.quote
  else if Ascii.eqb e JSON.backslash then Some JSON.backslash
  else if Ascii.eqb e "/" then Some "/"%char
  else if Ascii.eqb e "b" then Some "008"%char
  else if Ascii.eqb e "f" then Some "012"%char
  else if Ascii.eqb e "n" then Some "010"%char
  else if Ascii.eqb e "r" then Some "013"%char
  else if Ascii.eqb e "t" then Some "009"%char
  else None.

Definition hex_value (c : ascii) : nat :=
  let n := nat_of_ascii c in
  if (n <=? 57)%nat then n - 48 else if (n <=? 70)%nat then n - 55 else n - 87.

(** The string a string literal denotes, from the characters between its
    quotes; [None] when an escape is malformed or names a code unit above
    255, which a [string] cannot hold. *)
Fixpoint unescape (l : list ascii) : option (list ascii) :=
  match l with
  | [] => Some []
  | c :: l1 =>
      if Ascii.eqb c JSON.backslash then
        match l1 with
        | e :: l2 =>
            if Ascii.eqb e "u" then
              match l2 with
              | h1 :: h2 :: h3 :: h4 :: l3 =>
                  let code := (((hex_value h1 * 16 + hex_value h2) * 16 + hex_value h3) * 16
                               + hex_value h4)%nat in
                  if (code <? 256)%nat
                  then option_map (cons (ascii_of_nat code)) (unescape l3)
                  else None
              | _ => None
              end
            else
              match simple_escape_value e with
              | Some c' => option_map (cons c') (unescape l2)
              | None => None
              end
        | [] => None
        end
      else option_map (cons c) (unescape l1)
  end.

Definition string (v : option json) : option string :=
  match v with
  | Some (JString raw) =>
      option_map string_of_list_ascii (unescape (list_ascii_of_string raw))
  | _ => None
  end.

(** The [User] an element of the loaded array is read as: its four
    properties. *)
Definition user (v : json) : option User.t :=
  match v with
  | JObject ms =>
      match string (member "id" ms), string (member "fullName" ms),
            string (member "email" ms), string (member "createdAt" ms) with
      | Some id, Some fullName, Some email, Some createdAt =>
          Some (User.mk id fullName email createdAt)
      | _, _, _, _ => None
      end
  | _ => None
  end.

Fixpoint all (l : list json) : option (list User.t) :=
  match l with
  | [] => Some []
  | v :: l' =>
      match user v, all l' with
      | Some u, Some us => Some (u :: us)
      | _, _ => None
      end
  end.

Definition users (v : json) : option (list User.t) :=
  match v with
  | JArray l => all l
  | _ => None
  end.
End Read.

(** The syntax tree of the text of a property, of a user. *)
Definition property_tree (kv : string * string) : string * json :=
  (string_of_list_ascii (Stringify.escape (fst kv)),
   JString (string_of_list_ascii (Stringify.escape (snd kv)))).

Definition User_tree (u : User.t) : json :=
  JObject (map property_tree
             [("id", User.id u); ("fullName", User.fullName u);
              ("email", User.email u); ("createdAt", User.createdAt u)]).

(** A product with the quantity 2^53, the last integer up to which every
    integer is a number, and a state that holds it alone. *)
Definition pallet : Product.t :=
  Product.mk "p-9" "P9" "Pallet" (5 # 2) (2 ^ 53) "t".

Definition pallet_state : AppState :=
  mkApp [] [pallet] [] ∅ sample_world.

(** Registering the quantity 2^53, then adding 1. *)
Definition pallet_scenario : list Command :=
  [RegisterProduct "P9" "Pallet" (5 # 2) (2 ^ 53); AdjustStock "uuid-0" 1].

(** * Properties *)

(** ** Addition of numbers *)

Lemma round_double_exact (x : Z) : Z.abs x <= 2 ^ 53 -> round_double x = x.
Proof.
  intros H. unfold round_double. apply Z.leb_le in H. rewrite H. reflexivity.
Qed.

(** Past 2^53 the rounded magnitude is positive. *)
Lemma round_double_magnitude (a : Z) :
  2 ^ 53 < a ->
  let ulp := 2 ^ (Z.log2 a - 52) in
  0 < ulp /\ 1 <= a / ulp.
Proof.
  intros Ha ulp.
  assert (H53 : 53 <= Z.log2 a).
  { change 53 with (Z.log2 (2 ^ 53)). apply Z.log2_le_mono. lia. }
  assert (Hpos : 0 < ulp) by (apply Z.pow_pos_nonneg; lia).
  split; [exact Hpos|].
  assert (Hle : ulp <= a).
  { destruct (Z.log2_spec a) as [Hlo _]; [lia|].
    transitivity (2 ^ Z.log2 a); [|exact Hlo].
    apply Z.pow_le_mono_r; lia. }
  apply Z.div_le_lower_bound; lia.
Qed.

Lemma round_double_sign (x : Z) :
  (0 <= x -> 0 <= round_double x) /\ (x < 0 -> round_double x < 0).
Proof.
  unfold round_double. destruct (Z.abs x <=? 2 ^ 53) eqn:E; [split; intros; lia|].
  apply Z.leb_gt in E. destruct (round_double_magnitude _ E) as [Hu Hs].
  set (ulp := 2 ^ (Z.log2 (Z.abs x) - 52)) in *.
  set (significand := Z.abs x / ulp) in *.
  set (rounded := if 2 * (Z.abs x mod ulp) <? ulp then significand else _).
  assert (Hr : 1 <= rounded).
  { subst rounded. destruct (2 * (Z.abs x mod ulp) <? ulp); [lia|].
    destruct (ulp <? 2 * (Z.abs x mod ulp)); [lia|].
    destruct (Z.even significand); lia. }
  assert (Hp : 0 < rounded * ulp) by (apply Z.mul_pos_pos; lia).
  split; intros Hx.
  - rewrite Z.sgn_pos by lia. lia.
  - rewrite Z.sgn_neg by lia. lia.
Qed.

(** The guard of [handleAdjustStock] tests the rounded sum, which is
    negative exactly when the sum is. *)
Lemma Number_add_negative (a b : Z) : (Number_add a b <? 0) = (a + b <? 0).
Proof.
  unfold Number_add. destruct (round_double_sign (a + b)) as [Hp Hn].
  destruct (a + b <? 0) eqn:E.
  - apply Z.ltb_lt in E. apply Z.ltb_lt. auto.
  - apply Z.ltb_ge in E. apply Z.ltb_ge. auto.
Qed.

Lemma Number_add_nonneg (a b : Z) : 0 <= a + b -> 0 <= Number_add a b.
Proof. unfold Number_add. apply round_double_sign. Qed.

Lemma Number_add_exact (a b : Z) : Z.abs (a + b) <= 2 ^ 53 -> Number_add a b = a + b.
Proof. unfold Number_add. apply round_double_exact. Qed.

(** ** The stock adjustment engine, one call *)

Lemma handleAdjustStock_unfold rendered productId amount :
  handleAdjustStock rendered productId amount
  = setProducts rendered (mapM (stock_step rendered productId amount)).
Proof. reflexivity. Qed.

Lemma stock_step_reject rendered productId amount p s :
  accepts productId amount p = false ->
  stock_step rendered productId amount p s = (p, s).
Proof.
  unfold accepts, stock_step. intros H.
  destruct (String.eqb (Product.id p) productId); [|reflexivity].
  simpl in H. apply negb_false_iff in H. cbv zeta.
  rewrite Number_add_negative, H. reflexivity.
Qed.

Lemma stock_step_accept rendered productId amount p s :
  accepts productId amount p = true ->
  stock_step rendered productId amount p s
  = (updatedProduct p amount (date_tape (world s) (date_pos (world s))),
     after_accept rendered s p amount).
Proof.
  unfold accepts, stock_step. intros H.
  apply andb_true_iff in H as [Hid Hq]. apply negb_true_iff in Hq.
  cbv zeta. rewrite Hid, Number_add_negative, Hq.
  destruct s as [us ps ts ls [ut up dt dp]]. reflexivity.
Qed.

Lemma mapM_app {A B} (f : A -> M B) (l1 l2 : list A) (s : AppState) :
  mapM f (l1 ++ l2) s
  = let (a, s1) := mapM f l1 s in
    let (b, s2) := mapM f l2 s1 in (a ++ b, s2).
Proof.
  revert s. induction l1 as [|x l1 IH]; intros s; cbn [mapM app].
  - unfold ret. destruct (mapM f l2 s). reflexivity.
  - unfold bind, ret. destruct (f x s) as [b s1].
    rewrite IH. destruct (mapM f l1 s1) as [a s2].
    destruct (mapM f l2 s2) as [c s3]. reflexivity.
Qed.

Lemma mapM_stock_step_rejects rendered productId amount l s :
  Forall (fun p => accepts productId amount p = false) l ->
  mapM (stock_step rendered productId amount) l s = (l, s).
Proof.
  induction 1 as [|p l Hp _ IH]; [reflexivity|].
  simpl. unfold bind. rewrite stock_step_reject by assumption.
  rewrite IH. reflexivity.
Qed.

Lemma mapM_stock_step_one rendered productId amount l1 p l2 s :
  Forall (fun x => accepts productId amount x = false) l1 ->
  accepts productId amount p = true ->
  Forall (fun x => accepts productId amount x = false) l2 ->
  mapM (stock_step rendered productId amount) (l1 ++ p :: l2) s
  = (l1 ++ updatedProduct p amount (date_tape (world s) (date_pos (world s))) :: l2,
     after_accept rendered s p amount).
Proof.
  intros H1 Hp H2. rewrite mapM_app.
  rewrite mapM_stock_step_rejects by assumption.
  simpl. unfold bind. rewrite stock_step_accept by assumption.
  rewrite mapM_stock_step_rejects by assumption. reflexivity.
Qed.

Lemma adjustStock_rejected st productId amount :
  Forall (fun p => accepts productId amount p = false) (products st) ->
  adjustStock productId amount st = rejected_state st.
Proof.
  intros H. unfold adjustStock, dispatch. rewrite handleAdjustStock_unfold.
  unfold setProducts, setValue, bind. rewrite mapM_stock_step_rejects by assumption.
  reflexivity.
Qed.

Lemma adjustStock_accepted st productId amount l1 p l2 :
  products st = l1 ++ p :: l2 ->
  Forall (fun x => accepts productId amount x = false) l1 ->
  accepts productId amount p = true ->
  Forall (fun x => accepts productId amount x = false) l2 ->
  adjustStock productId amount st = accepted_state st l1 p l2 amount.
Proof.
  intros E H1 Hp H2. unfold adjustStock, dispatch. rewrite handleAdjustStock_unfold.
  unfold setProducts, setValue, bind. rewrite E.
  rewrite mapM_stock_step_one by assumption.
  destruct st as [us ps ts ls [ut up dt dp]]. reflexivity.
Qed.

(** In a table whose ids are unique, a product is the only one with its id. *)
Lemma unique_id_split (table : list Product.t) (p : Product.t) :
  NoDup (product_ids table) -> p ∈ table ->
  exists l1 l2, table = l1 ++ p :: l2
    /\ Forall (fun x => Product.id x <> Product.id p) l1
    /\ Forall (fun x => Product.id x <> Product.id p) l2.
Proof.
  intros Hnd Hin. apply list_elem_of_split in Hin as (l1 & l2 & ->).
  exists l1, l2. split; [reflexivity|].
  unfold product_ids in Hnd. rewrite fmap_app, fmap_cons in Hnd.
  apply NoDup_app in Hnd as (_ & Hdis & Hnd2). apply NoDup_cons in Hnd2 as [Hnot _].
  split; apply Forall_forall; intros x Hx Heq.
  - apply (Hdis (Product.id x)).
    + apply list_elem_of_fmap. exists x. split; [reflexivity|exact Hx].
    + rewrite Heq. left.
  - apply Hnot. apply list_elem_of_fmap. exists x. split; [symmetry; exact Heq|exact Hx].
Qed.

Lemma other_id_rejects productId amount (l : list Product.t) :
  Forall (fun x => Product.id x <> productId) l ->
  Forall (fun x => accepts productId amount x = false) l.
Proof.
  intros H. eapply Forall_impl; [exact H|]. intros x Hx. unfold accepts.
  apply String.eqb_neq in Hx. rewrite Hx. reflexivity.
Qed.

Lemma findProduct_Some id table p :
  findProduct id table = Some p -> p ∈ table /\ Product.id p = id.
Proof.
  unfold findProduct. intros H. apply find_some in H as [Hin Heq].
  split; [apply list_elem_of_In, Hin | apply String.eqb_eq, Heq].
Qed.

Lemma findProduct_None id table :
  findProduct id table = None -> Forall (fun x => Product.id x <> id) table.
Proof.
  unfold findProduct. intros H. apply Forall_forall. intros x Hx.
  apply String.eqb_neq. apply (find_none _ _ H x). apply list_elem_of_In, Hx.
Qed.

(** With unique ids, a call is either rejected as a whole or changes the one
    product it names. *)
Lemma adjustStock_cases st productId amount :
  NoDup (product_ids (products st)) ->
  (accepted st productId amount = false
   /\ adjustStock productId amount st = rejected_state st)
  \/ (exists l1 p l2,
        accepted st productId amount = true
        /\ products st = l1 ++ p :: l2
        /\ Product.id p = productId
        /\ 0 <= Product.quantity p + amount
        /\ adjustStock productId amount st = accepted_state st l1 p l2 amount).
Proof.
  intros Hnd. unfold accepted.
  destruct (findProduct productId (products st)) as [p|] eqn:Hf.
  - apply findProduct_Some in Hf as [Hin Hid].
    destruct (unique_id_split _ _ Hnd Hin) as (l1 & l2 & E & H1 & H2).
    rewrite Hid in H1, H2.
    destruct (Product.quantity p + amount <? 0) eqn:Hq; simpl.
    + left. split; [reflexivity|]. apply adjustStock_rejected.
      rewrite E. apply Forall_app. split; [|constructor].
      * apply other_id_rejects, H1.
      * unfold accepts. rewrite Hq. apply andb_false_r.
      * apply other_id_rejects, H2.
    + right. exists l1, p, l2. split; [reflexivity|]. split; [exact E|].
      split; [exact Hid|]. split; [lia|].
      apply adjustStock_accepted; try assumption.
      * apply other_id_rejects, H1.
      * unfold accepts. rewrite Hq. apply String.eqb_eq in Hid. rewrite Hid. reflexivity.
      * apply other_id_rejects, H2.
  - left. split; [reflexivity|]. apply adjustStock_rejected.
    apply other_id_rejects, findProduct_None, Hf.
Qed.

(** Whatever the table, the callback leaves the users and the pending
    product cell alone, and changes a product only by [adjusted]. *)
Lemma mapM_stock_step_frame rendered productId amount l s :
  Forall2 (adjusted productId amount) l
          (fst (mapM (stock_step rendered productId amount) l s))
  /\ users (snd (mapM (stock_step rendered productId amount) l s)) = users s.
Proof.
  revert s. induction l as [|p l IH]; intros s; cbn [mapM].
  - split; [constructor | reflexivity].
  - unfold bind, ret.
    destruct (accepts productId amount p) eqn:Hp.
    + rewrite stock_step_accept by assumption.
      specialize (IH (after_accept rendered s p amount)).
      destruct (mapM _ l _) as [l' s']. simpl in *. destruct IH as [IH1 IH2].
      split; [|exact IH2]. constructor; [|exact IH1].
      unfold accepts in Hp. apply andb_true_iff in Hp as [Hid Hq].
      apply String.eqb_eq in Hid. apply negb_true_iff, Z.ltb_ge in Hq.
      unfold adjusted, updatedProduct. simpl. repeat split; try reflexivity.
      right. repeat split; assumption.
    + rewrite stock_step_reject by assumption.
      specialize (IH s). destruct (mapM _ l _) as [l' s']. simpl in *.
      destruct IH as [IH1 IH2]. split; [|exact IH2].
      constructor; [|exact IH1]. unfold adjusted. repeat split; try reflexivity.
      left. reflexivity.
Qed.

Lemma adjustStock_adjusted st productId amount :
  Forall2 (adjusted productId amount) (products st)
          (products (adjustStock productId amount st))
  /\ users (adjustStock productId amount st) = users st.
Proof.
  unfold adjustStock, dispatch. rewrite handleAdjustStock_unfold.
  unfold setProducts, setValue, bind.
  pose proof (mapM_stock_step_frame st productId amount (products st) st) as [H1 H2].
  destruct (mapM _ _ _) as [l' s']. simpl in *. split; assumption.
Qed.

Lemma adjusted_ids productId amount l l' :
  Forall2 (adjusted productId amount) l l' -> product_ids l' = product_ids l.
Proof.
  induction 1 as [|p p' l l' Hp _ IH]; [reflexivity|].
  unfold product_ids in *. rewrite !fmap_cons, IH.
  destruct Hp as [-> _]. reflexivity.
Qed.

Lemma adjusted_nonneg productId amount l l' :
  Forall2 (adjusted productId amount) l l' ->
  quantities_nonneg l -> quantities_nonneg l'.
Proof.
  unfold quantities_nonneg.
  induction 1 as [|p p' l l' Hp _ IH]; intros Hq; [constructor|].
  apply Forall_cons in Hq as [Hq1 Hq2]. constructor; [|apply IH, Hq2].
  destruct Hp as (_ & _ & _ & _ & [-> | (_ & Hge & ->)]);
    [assumption | apply Number_add_nonneg, Hge].
Qed.

(** C10. Frame of [adjustStock]: in every call, accepted or rejected, the
    product table keeps its length and its order; at every position the
    product keeps its id, sku, name and price, and a product whose id is not
    the one named in the call is unchanged; the users table is unchanged. *)
Theorem adjustStock_frame (st : AppState) (productId : string) (delta : Z) :
  let st' := adjustStock productId delta st in
  length (products st') = length (products st)
  /\ (forall (i : nat) (p : Product.t),
        products st !! i = Some p ->
        exists p', products st' !! i = Some p'
          /\ Product.id p' = Product.id p
          /\ Product.sku p' = Product.sku p
          /\ Product.name p' = Product.name p
          /\ Product.price p' = Product.price p
          /\ (Product.id p <> productId -> p' = p))
  /\ users st' = users st.
Proof.
  intros st'. destruct (adjustStock_adjusted st productId delta) as [HF Hu].
  fold st' in HF, Hu. split; [|split; [|exact Hu]].
  - symmetry. eapply Forall2_length, HF.
  - intros i p Hi.
    destruct (Forall2_lookup_l _ _ _ _ _ HF Hi) as (p' & Hi' & Hadj).
    exists p'. split; [exact Hi'|].
    destruct Hadj as (H1 & H2 & H3 & H4 & H5). repeat split; try assumption.
    intros Hne. destruct H5 as [-> | (Heq & _)]; [reflexivity | contradiction].
Qed.

(** C2. A call that would drive the quantity of its product below zero
    changes nothing: the product table, with the quantity and lastUpdated of
    the product, the ledger, the users and the runtime are what they were
    before the call. The write that [setProducts] always makes stores the
    unchanged table again. *)
Theorem adjustStock_negative_rejected (st : AppState) (p : Product.t) (delta : Z) :
  NoDup (product_ids (products st)) ->
  p ∈ products st ->
  Product.quantity p + delta < 0 ->
  let st' := adjustStock (Product.id p) delta st in
  products st' = products st
  /\ p ∈ products st'
  /\ transactions st' = transactions st
  /\ length (transactions st') = length (transactions st)
  /\ users st' = users st
  /\ world st' = world st
  /\ localStorage st' = <["products" := SProducts (products st)]> (localStorage st).
Proof.
  intros Hnd Hin Hneg st'.
  assert (E : st' = rejected_state st).
  { subst st'. destruct (unique_id_split _ _ Hnd Hin) as (l1 & l2 & E & H1 & H2).
    apply adjustStock_rejected. rewrite E. apply Forall_app. split; [|constructor].
    - apply other_id_rejects, H1.
    - unfold accepts. apply Z.ltb_lt in Hneg. rewrite Hneg. apply andb_false_r.
    - apply other_id_rejects, H2. }
  rewrite E. simpl. repeat split; try reflexivity. exact Hin.
Qed.

(** C7. A call that names an id absent from the product table is a silent
    no-op: no product is created or changed, no transaction is recorded, and
    the call returns (the handler is a total function; nothing is raised). *)
Theorem adjustStock_unknown_id (st : AppState) (productId : string) (delta : Z) :
  productId ∉ product_ids (products st) ->
  let st' := adjustStock productId delta st in
  products st' = products st
  /\ transactions st' = transactions st
  /\ users st' = users st
  /\ world st' = world st
  /\ localStorage st' = <["products" := SProducts (products st)]> (localStorage st).
Proof.
  intros Hnot st'.
  assert (E : st' = rejected_state st).
  { subst st'. apply adjustStock_rejected, other_id_rejects.
    apply Forall_forall. intros x Hx Heq. apply Hnot. rewrite <- Heq.
    apply list_elem_of_fmap. exists x. split; [reflexivity | exact Hx]. }
  rewrite E. simpl. repeat split; reflexivity.
Qed.

(** C3, as claimed, fails past 2^53: on a product of quantity 2^53 the call
    with delta 1 is accepted and recorded as an [increase] of 1, and the
    quantity stays 2^53, which is what the addition of numbers makes of
    2^53 + 1. *)
Lemma adjustStock_sum_rounded :
  NoDup (product_ids (products pallet_state))
  /\ pallet ∈ products pallet_state
  /\ 0 <= Product.quantity pallet + 1
  /\ map Product.quantity (products (adjustStock (Product.id pallet) 1 pallet_state))
     = [2 ^ 53]
  /\ 2 ^ 53 <> Product.quantity pallet + 1
  /\ map (fun tx => (Transaction.type tx, Transaction.amount tx))
         (transactions (adjustStock (Product.id pallet) 1 pallet_state))
     = [(increase, 1)].
Proof.
  split; [apply NoDup_singleton|]. split; [left|].
  split; [vm_compute; discriminate|]. split; [vm_compute; reflexivity|].
  split; [vm_compute; discriminate | vm_compute; reflexivity].
Qed.

(** C3, amended. A call on an existing product whose new quantity is not
    negative replaces the product, in place, by one with the same id, sku,
    name and price, the clock's reading as lastUpdated, and as quantity the
    sum of the two numbers: that is [q + d] itself when [q + d] is at most
    2^53, it is [q + d] rounded to the nearest double as long as the sum
    stays below 2^1023, and it is never negative. The call puts exactly one
    new transaction in front of the ledger, the earlier entries unchanged
    behind it: its type is [increase] when [d > 0] and [decrease] otherwise
    (also for [d = 0]), its amount is [|d|], and its productId, sku and
    productName are those of the updated product. *)
Theorem adjustStock_accepted_effect (st : AppState) (p : Product.t) (delta : Z) :
  NoDup (product_ids (products st)) ->
  p ∈ products st ->
  0 <= Product.quantity p + delta ->
  let w := world st in
  let st' := adjustStock (Product.id p) delta st in
  exists (p' : Product.t) (tx : Transaction.t),
    (exists l1 l2, products st = l1 ++ p :: l2 /\ products st' = l1 ++ p' :: l2)
    /\ Product.id p' = Product.id p
    /\ Product.sku p' = Product.sku p
    /\ Product.name p' = Product.name p
    /\ Product.price p' = Product.price p
    /\ Product.lastUpdated p' = date_tape w (date_pos w)
    /\ (Product.quantity p + delta <= 2 ^ 53 ->
        Product.quantity p' = Product.quantity p + delta)
    /\ (Product.quantity p + delta < 2 ^ 1023 ->
        Product.quantity p' = round_double (Product.quantity p + delta))
    /\ 0 <= Product.quantity p'
    /\ transactions st' = tx :: transactions st
    /\ (0 < delta -> Transaction.type tx = increase)
    /\ (delta <= 0 -> Transaction.type tx = decrease)
    /\ Transaction.amount tx = Z.abs delta
    /\ Transaction.productId tx = Product.id p'
    /\ Transaction.sku tx = Product.sku p'
    /\ Transaction.productName tx = Product.name p'
    /\ Transaction.id tx = uuid_tape w (uuid_pos w)
    /\ Transaction.timestamp tx = date_tape w (S (date_pos w)).
Proof.
  intros Hnd Hin Hge w st'.
  destruct (unique_id_split _ _ Hnd Hin) as (l1 & l2 & E & H1 & H2).
  assert (Est : st' = accepted_state st l1 p l2 delta).
  { subst st'. apply adjustStock_accepted; try assumption.
    - apply other_id_rejects, H1.
    - unfold accepts. rewrite String.eqb_refl. apply Z.ltb_ge in Hge. rewrite Hge. reflexivity.
    - apply other_id_rejects, H2. }
  rewrite Est. unfold accepted_state. fold w. simpl.
  eexists. eexists. split; [exists l1, l2; split; [exact E | reflexivity]|].
  unfold updatedProduct. cbn [Product.id Product.sku Product.name Product.price
    Product.lastUpdated Product.quantity].
  do 5 (split; [reflexivity|]).
  split; [intros Hle; apply Number_add_exact; lia|].
  split; [intros _; reflexivity|].
  split; [apply Number_add_nonneg, Hge|].
  split; [reflexivity|]. simpl.
  split; [intros Hd; apply Z.gtb_lt in Hd; rewrite Hd; reflexivity|].
  split; [intros Hd; destruct (delta >? 0) eqn:G; [apply Z.gtb_lt in G; lia | reflexivity]|].
  repeat split; reflexivity.
Qed.

(** ** Sequences of adjustments *)

Lemma adjustStock_keeps_ids st productId amount :
  product_ids (products (adjustStock productId amount st)) = product_ids (products st).
Proof. eapply adjusted_ids, adjustStock_adjusted. Qed.

Lemma adjustStock_keeps_nonneg st productId amount :
  quantities_nonneg (products st) ->
  quantities_nonneg (products (adjustStock productId amount st)).
Proof. eapply adjusted_nonneg, adjustStock_adjusted. Qed.

(** One call adds one adjustment entry for the product it names when it is
    accepted, and none otherwise. *)
Lemma adjustStock_entries st id amount productId :
  NoDup (product_ids (products st)) ->
  adjustment_entries productId (transactions (adjustStock id amount st))
  = (adjustment_entries productId (transactions st)
     + (if String.eqb id productId && accepted st id amount then 1 else 0))%nat.
Proof.
  intros Hnd.
  destruct (adjustStock_cases st id amount Hnd)
    as [[Hacc ->] | (l1 & p & l2 & Hacc & _ & Hid & _ & ->)]; rewrite Hacc.
  - rewrite andb_false_r. simpl. lia.
  - rewrite andb_true_r. unfold accepted_state, adjustment_entries, entries.
    cbn [transactions List.filter newTransaction updatedProduct
         Transaction.productId Transaction.type Product.id].
    rewrite Hid.
    destruct (String.eqb id productId); cbn [andb].
    + destruct (amount >? 0); cbn [TransactionType_eqb length]; lia.
    + lia.
Qed.

(** C1. From a product table whose quantities are not negative, through
    any sequence of [adjustStock] calls with arbitrary ids and deltas: after
    every call every quantity is still not negative; and, the ids of the
    table being unique, for every product id the ledger has gained exactly as
    many [increase] and [decrease] entries as calls on that id were accepted,
    a rejected call adding none. *)
Theorem adjustStock_sequence_invariant (st : AppState) (calls : list (string * Z)) :
  quantities_nonneg (products st) ->
  Forall (fun s => quantities_nonneg (products s)) (states_after calls st)
  /\ (NoDup (product_ids (products st)) ->
      forall productId : string,
        adjustment_entries productId (transactions (adjustStock_all calls st))
        = (adjustment_entries productId (transactions st)
           + accepted_calls productId calls st)%nat).
Proof.
  revert st. induction calls as [|[id delta] calls IH]; intros st Hq.
  - split; [constructor|]. intros _ productId. simpl. lia.
  - assert (Hq' : quantities_nonneg (products (adjustStock id delta st)))
      by (apply adjustStock_keeps_nonneg; exact Hq).
    destruct (IH _ Hq') as [IH1 IH2]. split.
    + simpl. constructor; assumption.
    + intros Hnd productId. cbn [adjustStock_all accepted_calls].
      rewrite IH2 by (rewrite adjustStock_keeps_ids; exact Hnd).
      rewrite adjustStock_entries by assumption. lia.
Qed.

(** ** Registration *)

Lemma registerProduct_state st sku name price quantity :
  registerProduct sku name price quantity st
  = registered_state st sku name price quantity.
Proof. destruct st as [us ps ts ls [ut up dt dp]]. reflexivity. Qed.

Lemma handleRegisterUser_state st fullName email :
  dispatch (fun r => handleRegisterUser r fullName email) st
  = user_registered_state st fullName email.
Proof. destruct st as [us ps ts ls [ut up dt dp]]. reflexivity. Qed.

(** C4. [registerProduct] adds exactly one product, at the end of the table
    and with the given sku, name, price and quantity, and exactly one
    transaction, in front of the ledger: of type [initial], referencing the
    new product, and with the initial quantity as its amount; the users are
    untouched. The handler needs the quantity not to be negative for the
    amount; on sku, name and price it puts no condition, so this holds in
    particular for every valid input. *)
Theorem registerProduct_effect (st : AppState) (sku name : string) (price : Q)
    (quantity : Z) :
  0 <= quantity ->
  let w := world st in
  let st' := registerProduct sku name price quantity st in
  exists (newProduct : Product.t) (tx : Transaction.t),
    products st' = products st ++ [newProduct]
    /\ newProduct = Product.mk (uuid_tape w (uuid_pos w)) sku name price quantity
                               (date_tape w (date_pos w))
    /\ transactions st' = tx :: transactions st
    /\ Transaction.type tx = initial
    /\ Transaction.amount tx = quantity
    /\ Transaction.productId tx = Product.id newProduct
    /\ Transaction.sku tx = sku
    /\ Transaction.productName tx = name
    /\ users st' = users st.
Proof.
  intros Hq w st'. subst st'. rewrite registerProduct_state.
  unfold registered_state. fold w. cbn [products transactions users].
  eexists. eexists. split; [reflexivity|]. split; [reflexivity|].
  split; [reflexivity|]. cbn. repeat split; try reflexivity. apply Z.abs_eq, Hq.
Qed.

(** ** Reconstruction of the quantities from the ledger *)

Lemma entries_cons_other ty productId t ledger :
  Transaction.productId t <> productId ->
  entries ty productId (t :: ledger) = entries ty productId ledger.
Proof.
  intros H. unfold entries. cbn [List.filter].
  apply String.eqb_neq in H. rewrite H. reflexivity.
Qed.

Lemma entries_cons_type ty productId t ledger :
  TransactionType_eqb (Transaction.type t) ty = false ->
  entries ty productId (t :: ledger) = entries ty productId ledger.
Proof.
  intros H. unfold entries. cbn [List.filter]. rewrite H, andb_false_r. reflexivity.
Qed.

Lemma entries_cons_same ty productId t ledger :
  Transaction.productId t = productId ->
  Transaction.type t = ty ->
  entries ty productId (t :: ledger) = t :: entries ty productId ledger.
Proof.
  intros H1 H2. unfold entries. cbn [List.filter].
  apply String.eqb_eq in H1. rewrite H1, H2. destruct ty; reflexivity.
Qed.

Lemma entries_none ty productId ledger :
  Forall (fun t => Transaction.productId t <> productId) ledger ->
  entries ty productId ledger = [].
Proof.
  induction 1 as [|t l Ht _ IH]; [reflexivity|].
  rewrite entries_cons_other by exact Ht. exact IH.
Qed.

Lemma reconstructs_cons_other t ledger p :
  Transaction.productId t <> Product.id p ->
  reconstructs ledger p -> reconstructs (t :: ledger) p.
Proof.
  intros H. unfold reconstructs. rewrite !entries_cons_other by exact H. tauto.
Qed.

Lemma sum_amounts_nonneg (l : list Transaction.t) :
  Forall (fun t => 0 <= Transaction.amount t) l -> 0 <= sum_amounts l.
Proof.
  induction 1 as [|t l Ht _ IH]; [reflexivity|].
  unfold sum_amounts in *. cbn [fold_right]. lia.
Qed.

Lemma entries_nonneg ty productId (ledger : list Transaction.t) :
  Forall (fun t => 0 <= Transaction.amount t) ledger ->
  0 <= sum_amounts (entries ty productId ledger).
Proof.
  intros H. apply sum_amounts_nonneg. unfold entries.
  apply Forall_forall. intros t Ht. apply list_elem_of_In, filter_In in Ht as [Ht _].
  rewrite Forall_forall in H. apply H, list_elem_of_In, Ht.
Qed.

Lemma ids_middle (l1 : list Product.t) (p : Product.t) (l2 : list Product.t) :
  NoDup (product_ids (l1 ++ p :: l2)) ->
  Forall (fun x => Product.id x <> Product.id p) (l1 ++ l2).
Proof.
  intros Hnd. assert (Hin : p ∈ l1 ++ p :: l2) by (apply elem_of_app; right; left).
  unfold product_ids in Hnd. rewrite fmap_app, fmap_cons in Hnd.
  apply NoDup_app in Hnd as (_ & Hdis & Hnd2). apply NoDup_cons in Hnd2 as [Hnot _].
  apply Forall_app. split; apply Forall_forall; intros x Hx Heq.
  - apply (Hdis (Product.id x)).
    + apply list_elem_of_fmap. exists x. split; [reflexivity|exact Hx].
    + rewrite Heq. left.
  - apply Hnot. apply list_elem_of_fmap. exists x. split; [symmetry; exact Heq|exact Hx].
Qed.

Section Consistency.
Variable tape : nat -> string.
Hypothesis tape_fresh : forall i j : nat, tape i = tape j -> i = j.

Lemma consistent_empty storage w :
  uuid_tape w = tape -> ledger_consistent tape (empty_state storage w).
Proof.
  intros H. unfold ledger_consistent, empty_state. simpl.
  repeat split; try constructor. exact H.
Qed.

Lemma consistent_user_registered st fullName email :
  ledger_consistent tape st ->
  ledger_consistent tape (user_registered_state st fullName email).
Proof.
  intros (Ht & Hnd & Hid & Htx & Hrec & Hamt).
  unfold ledger_consistent, user_registered_state.
  simpl. repeat split; try assumption.
  eapply Forall_impl; [exact Hid|]. intros p (i & Hi & Hp). exists i. split; [lia|exact Hp].
Qed.

Lemma consistent_registerUser st fullName email :
  ledger_consistent tape st ->
  ledger_consistent tape (snd (registerUser fullName email st)).
Proof.
  intros H. unfold registerUser, UserRegistrationForm.handleSubmit.
  cbn [UserRegistrationForm.fullName UserRegistrationForm.email].
  destruct (not_string fullName || not_string email); [exact H|].
  destruct (negb (RegExp.test email_regexp email)); [exact H|].
  cbn [snd]. rewrite handleRegisterUser_state. apply consistent_user_registered, H.
Qed.

Lemma consistent_registerProduct st sku name price quantity :
  0 <= quantity ->
  ledger_consistent tape st ->
  ledger_consistent tape (registerProduct sku name price quantity st).
Proof.
  intros Hq (Ht & Hnd & Hid & Htx & Hrec & Hamt). rewrite registerProduct_state.
  unfold ledger_consistent, registered_state. rewrite Ht. cbn [world uuid_tape uuid_pos
    products transactions].
  set (newProduct := Product.mk _ _ _ _ _ _). set (tx := newTransaction _ _ _ _ _).
  assert (Hnew : Forall (fun p => Product.id p <> Product.id newProduct) (products st)).
  { eapply Forall_impl; [exact Hid|]. intros p (i & Hi & Hp) Heq.
    subst newProduct. cbn in Heq. rewrite Hp in Heq. apply tape_fresh in Heq. lia. }
  assert (Hnotin : Product.id newProduct ∉ product_ids (products st)).
  { intros Hin. apply list_elem_of_fmap in Hin as (x & Hx1 & Hx2).
    rewrite Forall_forall in Hnew. exact (Hnew x Hx2 (eq_sym Hx1)). }
  split; [reflexivity|]. split; [|split; [|split; [|split]]].
  - unfold product_ids. rewrite fmap_app. apply NoDup_app. split; [exact Hnd|].
    split; [|apply NoDup_singleton].
    intros x Hx Hx'. apply list_elem_of_singleton in Hx'. subst x. exact (Hnotin Hx).
  - apply Forall_app. split.
    + eapply Forall_impl; [exact Hid|]. intros p (i & Hi & Hp). exists i. split; [lia|exact Hp].
    + constructor; [|constructor]. exists (uuid_pos (world st)). split; [lia|reflexivity].
  - unfold product_ids. rewrite fmap_app. constructor.
    + apply elem_of_app. right. left.
    + eapply Forall_impl; [exact Htx|]. intros t Hin. apply elem_of_app. left. exact Hin.
  - apply Forall_app. split.
    + rewrite Forall_forall in Hrec, Hnew. apply Forall_forall. intros p Hp.
      apply reconstructs_cons_other; [|apply Hrec, Hp].
      intros Heq. apply (Hnew p Hp). symmetry. exact Heq.
    + constructor; [|constructor].
      assert (Hnone : forall ty, entries ty (Product.id newProduct) (transactions st) = []).
      { intros ty. apply entries_none. eapply Forall_impl; [exact Htx|].
        intros t Hin Heq. apply Hnotin. rewrite <- Heq. exact Hin. }
      unfold reconstructs.
      rewrite (entries_cons_same initial) by reflexivity.
      rewrite !(entries_cons_type) by reflexivity. rewrite !Hnone.
      cbn. split; [reflexivity|]. lia.
  - constructor; [|exact Hamt]. subst tx. cbn. lia.
Qed.

Lemma consistent_adjustStock st productId delta :
  ledger_consistent tape st ->
  ledger_consistent tape (adjustStock productId delta st).
Proof.
  intros (Ht & Hnd & Hid & Htx & Hrec & Hamt).
  destruct (adjustStock_cases st productId delta Hnd)
    as [[_ ->] | (l1 & p & l2 & _ & E & Hp & Hge & ->)].
  - unfold ledger_consistent, rejected_state. simpl. repeat split; assumption.
  - rewrite E in Hnd, Hid, Htx, Hrec.
    pose proof (ids_middle _ _ _ Hnd) as Hother.
    unfold ledger_consistent, accepted_state. rewrite Ht.
    cbn [world uuid_tape uuid_pos products transactions].
    set (p' := updatedProduct p delta _). set (tx := newTransaction _ _ _ _ _).
    assert (Eids : product_ids (l1 ++ p' :: l2) = product_ids (l1 ++ p :: l2)).
    { unfold product_ids. rewrite !fmap_app, !fmap_cons. reflexivity. }
    split; [reflexivity|]. split; [|split; [|split; [|split]]].
    + rewrite Eids. exact Hnd.
    + apply Forall_app in Hid as [Hid1 Hid2]. apply Forall_cons in Hid2 as [Hidp Hid2].
      assert (Hmono : forall x : Product.t,
                 (exists i : nat, (i < uuid_pos (world st))%nat /\ Product.id x = tape i) ->
                 exists i : nat, (i < S (uuid_pos (world st)))%nat /\ Product.id x = tape i).
      { intros x (i & Hi & Hx). exists i. split; [lia|exact Hx]. }
      apply Forall_app. split; [eapply Forall_impl; [exact Hid1|exact Hmono]|].
      constructor; [apply Hmono, Hidp | eapply Forall_impl; [exact Hid2|exact Hmono]].
    + rewrite Eids. constructor; [|exact Htx].
      apply list_elem_of_fmap. exists p. split; [reflexivity|]. apply elem_of_app. right. left.
    + apply Forall_app in Hrec as [Hrec1 Hrec2]. apply Forall_cons in Hrec2 as [Hrecp Hrec2].
      apply Forall_app in Hother as [Ho1 Ho2].
      assert (Hkeep : forall l, Forall (fun x => Product.id x <> Product.id p) l ->
                Forall (reconstructs (transactions st)) l ->
                Forall (reconstructs (tx :: transactions st)) l).
      { intros l Ho Hr. rewrite Forall_forall in Ho, Hr. apply Forall_forall. intros x Hx.
        apply reconstructs_cons_other; [|apply Hr, Hx].
        intros Heq. apply (Ho x Hx). symmetry. exact Heq. }
      apply Forall_app. split; [apply Hkeep; assumption|].
      constructor; [|apply Hkeep; assumption].
      destruct Hrecp as [Hone Hsum]. unfold reconstructs.
      change (Product.id p') with (Product.id p).
      change (Product.quantity p') with (Number_add (Product.quantity p) delta).
      rewrite (entries_cons_type initial)
        by (subst tx; cbn; destruct (delta >? 0); reflexivity).
      split; [exact Hone|].
      pose proof (entries_nonneg decrease (Product.id p) _ Hamt) as Hdec.
      pose proof (entries_nonneg increase (Product.id p) _ Hamt) as Hinc.
      destruct (delta >? 0) eqn:G.
      * rewrite (entries_cons_same increase) by (subst tx; cbn; rewrite ?G; reflexivity).
        rewrite (entries_cons_type decrease) by (subst tx; cbn; rewrite ?G; reflexivity).
        apply Z.gtb_lt in G.
        subst tx. cbn [sum_amounts fold_right newTransaction Transaction.amount].
        fold (sum_amounts (entries increase (Product.id p) (transactions st))).
        intros Hin. rewrite Number_add_exact by lia. lia.
      * assert (delta <= 0) by (rewrite Z.gtb_ltb in G; apply Z.ltb_ge in G; exact G).
        rewrite (entries_cons_same decrease) by (subst tx; cbn; rewrite ?G; reflexivity).
        rewrite (entries_cons_type increase) by (subst tx; cbn; rewrite ?G; reflexivity).
        subst tx. cbn [sum_amounts fold_right newTransaction Transaction.amount].
        fold (sum_amounts (entries decrease (Product.id p) (transactions st))).
        intros Hin. rewrite Number_add_exact by lia. lia.
    + constructor; [|exact Hamt]. subst tx. cbn. lia.
Qed.
End Consistency.




(** ** The transaction history pager *)

Lemma totalPages_ceil (txs : list Transaction.t) :
  TransactionHistory.totalPages txs = (Z.of_nat (length txs) + 9) / 10.
Proof.
  unfold TransactionHistory.totalPages, Qceiling, Qfloor, ITEMS_PER_PAGE.
  cbn [Qdiv Qinv Qmult Qopp inject_Z Qnum Qden Pos.mul].
  generalize (Z.of_nat (length txs)). intros n.
  change (Z.pos (1 * 10)) with 10.
  Z.div_mod_to_equations. lia.
Qed.

Lemma click_in_range (txs : list Transaction.t) c page :
  1 <= page <= Z.max 1 (TransactionHistory.totalPages txs) ->
  1 <= TransactionHistory.click txs c page <= Z.max 1 (TransactionHistory.totalPages txs).
Proof.
  unfold TransactionHistory.click, TransactionHistory.handlePrevPage,
    TransactionHistory.handleNextPage.
  generalize (TransactionHistory.totalPages txs). intros T H.
  destruct (T >? 1) eqn:G; [|exact H]. apply Z.gtb_lt in G.
  destruct c.
  - destruct (page =? 1); lia.
  - destruct (page =? T); lia.
Qed.

Lemma clicks_in_range (txs : list Transaction.t) clicks page :
  1 <= page <= Z.max 1 (TransactionHistory.totalPages txs) ->
  1 <= fold_left (fun p c => TransactionHistory.click txs c p) clicks page
    <= Z.max 1 (TransactionHistory.totalPages txs).
Proof.
  revert page. induction clicks as [|c clicks IH]; intros page H; [exact H|].
  cbn [fold_left]. apply IH, click_in_range, H.
Qed.

Lemma next_clicks (txs : list Transaction.t) (k : nat) page :
  1 <= page <= Z.max 1 (TransactionHistory.totalPages txs) ->
  fold_left (fun p c => TransactionHistory.click txs c p)
            (repeat TransactionHistory.Next k) page
  = Z.min (page + Z.of_nat k) (Z.max 1 (TransactionHistory.totalPages txs)).
Proof.
  revert page. induction k as [|k IH]; intros page H.
  - cbn. lia.
  - cbn [repeat fold_left]. rewrite IH by (apply click_in_range, H).
    unfold TransactionHistory.click, TransactionHistory.handleNextPage.
    revert H. generalize (TransactionHistory.totalPages txs). intros T H.
    destruct (T >? 1) eqn:G.
    + apply Z.gtb_lt in G. destruct (page =? T) eqn:E.
      * apply Z.eqb_eq in E. lia.
      * apply Z.eqb_neq in E. lia.
    + rewrite Z.gtb_ltb in G. apply Z.ltb_ge in G. lia.
Qed.

Lemma listTransactions_clamped (txs : list Transaction.t) (page : nat) :
  listTransactions txs page
  = TransactionHistory.currentTransactions txs
      (Z.max 1 (Z.min (Z.of_nat page) (TransactionHistory.totalPages txs))).
Proof.
  unfold listTransactions, TransactionHistory.currentPage_after.
  rewrite next_clicks by lia. f_equal. lia.
Qed.

Lemma slice_window {A} (l : list A) (a b : Z) :
  0 <= a <= b ->
  slice l a b = take (Z.to_nat (b - a)) (drop (Z.to_nat a) l).
Proof.
  intros H. unfold slice.
  destruct (a <? 0) eqn:Ea; [apply Z.ltb_lt in Ea; lia|].
  destruct (b <? 0) eqn:Eb; [apply Z.ltb_lt in Eb; lia|].
  set (len := Z.of_nat (length l)).
  destruct (Z.le_gt_cases len a) as [Hla | Hla].
  - rewrite (drop_ge l (Z.to_nat a)) by lia.
    rewrite (drop_ge l (Z.to_nat (Z.min a len))) by lia.
    rewrite !take_nil. reflexivity.
  - rewrite (Z.min_l a len) by lia.
    destruct (Z.le_gt_cases b len) as [Hlb | Hlb].
    + rewrite (Z.min_l b len) by lia. rewrite Z.max_l by lia. reflexivity.
    + rewrite (Z.min_r b len) by lia. rewrite Z.max_l by lia.
      rewrite !take_ge; [reflexivity | |]; rewrite length_drop; lia.
Qed.

(** The clamp of [handleNextPage] alone would leave page 1 for page 0 on an
    empty ledger, where [totalPages] is 0; the button that runs it is not
    rendered then, and [click] does nothing. *)
Example next_on_empty_ledger :
  TransactionHistory.handleNextPage [] 1 = 0
  /\ TransactionHistory.click [] TransactionHistory.Next 1 = 1.
Proof. split; reflexivity. Qed.

(** C5. Over a ledger of 25 transactions the pages 1, 2 and 3 show the
    first 10 entries, the next 10 and the last 5, and asking for page 4
    shows what page 3 shows. In general asking for a page shows the page
    whose number is clamped to [1 .. ceil(total / 10)], and page 1 when the
    ledger is empty; whatever buttons are pressed, the page number stays in
    that range. The rows are a function of the ledger and the page number:
    paging is deterministic and has no effect on the ledger. *)
Theorem listTransactions_pages (txs : list Transaction.t) :
  (length txs = 25%nat ->
     listTransactions txs 1 = take 10 txs
     /\ listTransactions txs 2 = take 10 (drop 10 txs)
     /\ listTransactions txs 3 = drop 20 txs
     /\ listTransactions txs 4 = listTransactions txs 3
     /\ length (listTransactions txs 1) = 10%nat
     /\ length (listTransactions txs 2) = 10%nat
     /\ length (listTransactions txs 3) = 5%nat)
  /\ TransactionHistory.totalPages txs = (Z.of_nat (length txs) + 9) / 10
  /\ (forall page : nat,
        listTransactions txs page
        = TransactionHistory.currentTransactions txs
            (Z.max 1 (Z.min (Z.of_nat page) (TransactionHistory.totalPages txs))))
  /\ (txs = [] ->
        (forall clicks : list TransactionHistory.Click,
           TransactionHistory.currentPage_after txs clicks = 1)
        /\ forall page : nat, listTransactions txs page = [])
  /\ (forall clicks : list TransactionHistory.Click,
        1 <= TransactionHistory.currentPage_after txs clicks
          <= Z.max 1 (TransactionHistory.totalPages txs)).
Proof.
  split; [|split; [apply totalPages_ceil|split; [apply listTransactions_clamped|split]]].
  - intros Hlen.
    assert (HT : TransactionHistory.totalPages txs = 3)
      by (rewrite totalPages_ceil, Hlen; reflexivity).
    assert (H1 : listTransactions txs 1 = take 10 txs).
    { rewrite listTransactions_clamped, HT. unfold TransactionHistory.currentTransactions.
      rewrite slice_window by (unfold ITEMS_PER_PAGE; lia). reflexivity. }
    assert (H2 : listTransactions txs 2 = take 10 (drop 10 txs)).
    { rewrite listTransactions_clamped, HT. unfold TransactionHistory.currentTransactions.
      rewrite slice_window by (unfold ITEMS_PER_PAGE; lia). reflexivity. }
    assert (H3 : listTransactions txs 3 = drop 20 txs).
    { rewrite listTransactions_clamped, HT. unfold TransactionHistory.currentTransactions.
      rewrite slice_window by (unfold ITEMS_PER_PAGE; lia).
      change (take 10 (drop 20 txs) = drop 20 txs).
      apply take_ge. rewrite length_drop, Hlen. cbn. lia. }
    assert (H4 : listTransactions txs 4 = listTransactions txs 3).
    { rewrite !listTransactions_clamped, HT. reflexivity. }
    rewrite H1, H2, H4, H3. repeat split; try reflexivity.
    + rewrite length_take, Hlen. reflexivity.
    + rewrite length_take, length_drop, Hlen. reflexivity.
    + rewrite length_drop, Hlen. reflexivity.
  - intros ->. split.
    + intros clicks.
      assert (T0 : TransactionHistory.totalPages [] = 0)
        by (rewrite totalPages_ceil; reflexivity).
      pose proof (clicks_in_range [] clicks 1 ltac:(lia)) as H.
      unfold TransactionHistory.currentPage_after.
      rewrite T0 in H. lia.
    + intros page. rewrite listTransactions_clamped.
      unfold TransactionHistory.currentTransactions, slice.
      rewrite drop_nil. apply take_nil.
  - intros clicks. unfold TransactionHistory.currentPage_after.
    apply clicks_in_range. lia.
Qed.

(** ** The email pattern *)

Lemma nullable_sound r : RegExp.nullable r = true -> lang r [].
Proof.
  induction r as [| |p|r1 IH1 r2 IH2|r1 IH1 r2 IH2|r IH]; cbn; intros H;
    try discriminate.
  - constructor.
  - apply andb_true_iff in H as [H1 H2].
    change (@nil ascii) with (@nil ascii ++ []). constructor; auto.
  - apply orb_true_iff in H as [H|H]; [apply lang_Alt_l | apply lang_Alt_r]; auto.
  - constructor.
Qed.

Lemma deriv_sound c r : forall s, lang (RegExp.deriv c r) s -> lang r (c :: s).
Proof.
  induction r as [| |p|r1 IH1 r2 IH2|r1 IH1 r2 IH2|r IH]; cbn; intros s H.
  - inversion H.
  - inversion H.
  - destruct (p c) eqn:E; inversion H; subst. constructor. exact E.
  - destruct (RegExp.nullable r1) eqn:N.
    + inversion H as [| | | ? ? ? H' | ? ? ? H' | |]; subst.
      * inversion H' as [| |? ? s1 s2 Ha Hb| | | |]; subst.
        change (c :: s1 ++ s2) with ((c :: s1) ++ s2). constructor; auto.
      * change (c :: s) with ([] ++ c :: s). constructor; auto using nullable_sound.
    + inversion H as [| |? ? s1 s2 Ha Hb| | | |]; subst.
      change (c :: s1 ++ s2) with ((c :: s1) ++ s2). constructor; auto.
  - inversion H; subst; [apply lang_Alt_l | apply lang_Alt_r]; auto.
  - inversion H as [| |? ? s1 s2 Ha Hb| | | |]; subst.
    change (c :: s1 ++ s2) with ((c :: s1) ++ s2). constructor; auto.
Qed.

Lemma matches_sound s : forall r, RegExp.matches r s = true -> lang r s.
Proof.
  induction s as [|c s IH]; cbn; intros r H.
  - apply nullable_sound, H.
  - apply deriv_sound, IH, H.
Qed.

Lemma lang_chr c s : lang (RegExp.chr c) s -> s = [c].
Proof.
  unfold RegExp.chr. intros H. inversion H as [|? c' E| | | | |]; subst.
  apply Ascii.eqb_eq in E. subst. reflexivity.
Qed.

Lemma lang_star_S s : lang (RegExp.Star RegExp.S_) s -> no_whitespace s.
Proof.
  intros H. remember (RegExp.Star RegExp.S_) as r eqn:Er.
  induction H as [| | | | | |r' s1 s2 H1 _ H2 IH2]; try discriminate; [constructor|].
  injection Er as ->. unfold no_whitespace. apply Forall_app. split; [|apply IH2; reflexivity].
  unfold RegExp.S_ in H1. inversion H1 as [|? c E| | | | |]; subst.
  constructor; [|constructor]. apply negb_true_iff, E.
Qed.

Lemma lang_plus_S s : lang (RegExp.plus RegExp.S_) s -> s <> [] /\ no_whitespace s.
Proof.
  unfold RegExp.plus. intros H. inversion H as [| |? ? s1 s2 H1 H2| | | |]; subst.
  unfold RegExp.S_ in H1. inversion H1 as [|? c E| | | | |]; subst.
  split; [discriminate|]. constructor; [apply negb_true_iff, E | apply lang_star_S, H2].
Qed.

(** A string the regular expression of the form accepts has the shape the
    specification describes. *)
Lemma email_regexp_spec (email : string) :
  RegExp.test email_regexp email = true -> spec_email_pattern email.
Proof.
  unfold RegExp.test. intros H. apply matches_sound in H. unfold email_regexp in H.
  inversion H as [| |? ? a s1 Ha Rest1| | | |]; subst.
  inversion Rest1 as [| |? ? at_ s2 Hat Rest2| | | |]; subst.
  inversion Rest2 as [| |? ? b s3 Hb Rest3| | | |]; subst.
  inversion Rest3 as [| |? ? dot c Hdot Hc| | | |]; subst.
  apply lang_chr in Hat, Hdot. subst at_ dot.
  apply lang_plus_S in Ha as [Ha1 Ha2], Hb as [Hb1 Hb2], Hc as [Hc1 Hc2].
  exists a, (b ++ "."%char :: c). split; [|split; [exact Ha1|split; [exact Ha2|split; [|split]]]].
  - match goal with E : _ = list_ascii_of_string email |- _ => rewrite <- E end. reflexivity.
  - destruct b; [contradiction | discriminate].
  - unfold no_whitespace. apply Forall_app. split; [exact Hb2|].
    constructor; [reflexivity | exact Hc2].
  - apply in_or_app. right. left. reflexivity.
Qed.

(** The form is stricter than the words of the specification: it also wants
    a character after the last dot and one between the [@] and a dot. *)
Example email_trailing_dot :
  spec_email_pattern "a@b." /\ RegExp.test email_regexp "a@b." = false.
Proof.
  split; [|reflexivity].
  exists ["a"%char], ["b"%char; "."%char].
  split; [reflexivity|]. split; [discriminate|]. split; [repeat constructor|].
  split; [discriminate|]. split; [repeat constructor|].
  right. left. reflexivity.
Qed.

(** C8. [registerUser] shows a validation error and creates no user (the
    state is the one before) whenever the full name or the email is empty, or
    the email is not of the shape "non-whitespace run, [@], non-whitespace
    run containing a dot". With a full name, "a@b.com" is accepted and the
    user is appended to the users; "abc" is rejected and nothing changes. *)
Theorem registerUser_validation (fullName email : string) (app : AppState) :
  (fullName = "" \/ email = "" \/ ~ spec_email_pattern email ->
     exists message : string,
       message <> "" /\ registerUser fullName email app = (message, app))
  /\ (fullName <> "" ->
        let w := world app in
        let app' := snd (registerUser fullName "a@b.com" app) in
        fst (registerUser fullName "a@b.com" app) = ""
        /\ users app'
           = users app ++ [User.mk (uuid_tape w (uuid_pos w)) fullName "a@b.com"
                                   (date_tape w (date_pos w))]
        /\ products app' = products app
        /\ transactions app' = transactions app)
  /\ (exists message : string,
        message <> "" /\ registerUser fullName "abc" app = (message, app)).
Proof.
  split; [|split].
  - intros H. unfold registerUser, UserRegistrationForm.handleSubmit.
    cbn [UserRegistrationForm.fullName UserRegistrationForm.email].
    destruct (not_string fullName || not_string email) eqn:E1.
    + eexists. split; [|reflexivity]. discriminate.
    + destruct (RegExp.test email_regexp email) eqn:E2; cbn [negb].
      * exfalso. apply orb_false_iff in E1 as [Ef Ee]. unfold not_string in Ef, Ee.
        apply String.eqb_neq in Ef, Ee.
        destruct H as [H | [H | H]]; [contradiction | contradiction |].
        apply H, email_regexp_spec, E2.
      * eexists. split; [|reflexivity]. discriminate.
  - intros Hname w app'.
    assert (E : registerUser fullName "a@b.com" app
                = ("", user_registered_state app fullName "a@b.com")).
    { unfold registerUser, UserRegistrationForm.handleSubmit.
      cbn [UserRegistrationForm.fullName UserRegistrationForm.email].
      unfold not_string. apply String.eqb_neq in Hname. rewrite Hname.
      change (RegExp.test email_regexp "a@b.com") with true.
      cbn [String.eqb orb negb UserRegistrationForm.error].
      rewrite handleRegisterUser_state. reflexivity. }
    subst app'. rewrite E. repeat split; reflexivity.
  - unfold registerUser, UserRegistrationForm.handleSubmit.
    cbn [UserRegistrationForm.fullName UserRegistrationForm.email].
    destruct (not_string fullName || not_string "abc").
    + eexists. split; [|reflexivity]. discriminate.
    + change (RegExp.test email_regexp "abc") with false. cbn [negb].
      eexists. split; [|reflexivity]. discriminate.
Qed.

(** ** The JSON parser has fuel enough *)

Section Fuel.
Import JSON.

Lemma skip_ws_length l : (length (skip_ws l) <= length l)%nat.
Proof.
  induction l as [|c l IH]; cbn; [lia|]. destruct (is_ws c); cbn; lia.
Qed.

Lemma span_length p l : (length (snd (span p l)) <= length l)%nat.
Proof.
  induction l as [|c l IH]; cbn; [lia|].
  destruct (p c); [|cbn; lia]. destruct (span p l) as [a b]. cbn in *. lia.
Qed.

Lemma literal_length w l r : literal w l = Some r -> (length r <= length l)%nat.
Proof.
  revert l. induction w as [|x w IH]; intros l H; cbn in H.
  - destruct l; injection H as <-; lia.
  - destruct l as [|c l]; [discriminate|]. destruct (Ascii.eqb x c); [|discriminate].
    apply IH in H. cbn. lia.
Qed.

Lemma scan_string_length_upto (n : nat) : forall l s r,
  (length l <= n)%nat ->
  scan_string l = Some (s, r) -> (length r < length l)%nat.
Proof.
  induction n as [|n IHn]; intros l s r Hn H.
  { destruct l; [discriminate | cbn in Hn; lia]. }
  assert (IH : forall l' s' r', (length l' < length l)%nat ->
            scan_string l' = Some (s', r') -> (length r' < length l')%nat)
    by (intros l' s' r' Hl; apply IHn; lia).
  clear IHn. destruct l as [|c l1]; [discriminate|]. cbn [scan_string] in H.
  destruct (Ascii.eqb c quote). { injection H as _ <-. cbn. lia. }
  destruct (Ascii.eqb c backslash).
  - destruct l1 as [|e l2]; [discriminate|].
    destruct (is_simple_escape e).
    + destruct (scan_string l2) as [[s' r']|] eqn:E; [|discriminate].
      injection H as _ <-. apply IH in E; cbn in *; lia.
    + destruct (Ascii.eqb e "u"); [|discriminate].
      destruct l2 as [|h1 [|h2 [|h3 [|h4 l3]]]]; try discriminate.
      destruct (is_hex h1 && is_hex h2 && is_hex h3 && is_hex h4); [|discriminate].
      destruct (scan_string l3) as [[s' r']|] eqn:E; [|discriminate].
      injection H as _ <-. apply IH in E; cbn in *; lia.
  - destruct (nat_of_ascii c <? 32)%nat; [discriminate|].
    destruct (scan_string l1) as [[s' r']|] eqn:E; [|discriminate].
    injection H as _ <-. apply IH in E; cbn in *; lia.
Qed.

Lemma scan_string_length l s r :
  scan_string l = Some (s, r) -> (length r < length l)%nat.
Proof. apply (scan_string_length_upto (length l)). lia. Qed.

Lemma scan_number_length l s r :
  scan_number l = Some (s, r) -> (length r < length l)%nat.
Proof.
  unfold scan_number. intros H.
  set (sl := match l with
             | c :: l' => if Ascii.eqb c "-" then ([c], l') else ([], l)
             | [] => ([], l) end) in H.
  assert (Hsl : (length (snd sl) <= length l)%nat).
  { subst sl. destruct l as [|c l']; cbn; [lia|]. destruct (Ascii.eqb c "-"); cbn; lia. }
  destruct sl as [sign l1]. cbn in Hsl.
  destruct l1 as [|c l']; [discriminate|].
  assert (Hint : forall i l2,
     (if Ascii.eqb c "0" then Some ([c], l')
      else if is_digit c then let (ds, r) := span is_digit l' in Some (c :: ds, r)
      else None) = Some (i, l2) -> (length l2 <= length l')%nat).
  { intros i l2 E. destruct (Ascii.eqb c "0"); [injection E as _ <-; lia|].
    destruct (is_digit c); [|discriminate].
    pose proof (span_length is_digit l') as L. destruct (span is_digit l') as [ds r0].
    injection E as _ <-. exact L. }
  destruct (if Ascii.eqb c "0" then _ else _) as [[i l2]|]; [|discriminate].
  specialize (Hint _ _ eq_refl).
  set (frac := match l2 with | c0 :: l'0 => _ | [] => _ end) in H.
  assert (Hfrac : forall f l3, frac = Some (f, l3) -> (length l3 <= length l2)%nat).
  { subst frac. intros f l3 E. destruct l2 as [|c0 l'0]; [injection E as _ <-; lia|].
    destruct (Ascii.eqb c0 ".").
    - pose proof (span_length is_digit l'0) as L. destruct (span is_digit l'0) as [ds r0].
      destruct ds; [discriminate|]. injection E as _ <-. cbn in *. lia.
    - injection E as _ <-. lia. }
  destruct frac as [[f l3]|]; [|discriminate]. specialize (Hfrac _ _ eq_refl).
  set (ex := match l3 with | c0 :: l'0 => _ | [] => _ end) in H.
  assert (Hex : forall e l4, ex = Some (e, l4) -> (length l4 <= length l3)%nat).
  { subst ex. intros e l4 E. destruct l3 as [|c0 l'0]; [injection E as _ <-; lia|].
    destruct (Ascii.eqb c0 "e" || Ascii.eqb c0 "E").
    - set (sg := match l'0 with | s0 :: r0 => _ | [] => _ end) in E.
      assert (Hsg : (length (snd sg) <= length l'0)%nat).
      { subst sg. destruct l'0 as [|s0 r0]; cbn; [lia|].
        destruct (Ascii.eqb s0 "+" || Ascii.eqb s0 "-"); cbn; lia. }
      destruct sg as [sg l'']. cbn in Hsg.
      pose proof (span_length is_digit l'') as L. destruct (span is_digit l'') as [ds r0].
      destruct ds; [discriminate|]. injection E as _ <-. cbn in *. lia.
    - injection E as _ <-. lia. }
  destruct ex as [[e l4]|]; [|discriminate]. specialize (Hex _ _ eq_refl).
  injection H as _ <-. cbn in *. lia.
Qed.

Local Ltac use_eqs :=
  repeat match goal with
  | E : ?x = _ |- context [match ?x with _ => _ end] => rewrite E
  | E : ?x = _ |- context [if ?x then _ else _] => rewrite E
  end.

Lemma value_bound_step m :
  elements_bound m -> members_bound m -> value_bound (S m).
Proof.
  intros IHe IHm l v r H. cbn [parse_value] in H.
  pose proof (skip_ws_length l) as Lw.
  destruct (skip_ws l) as [|c r0] eqn:E0; [discriminate|]. cbn in Lw.
  destruct (Ascii.eqb c "{") eqn:C1.
  { pose proof (skip_ws_length r0) as Lw0.
    destruct (skip_ws r0) as [|c' r'] eqn:E1; [discriminate|]. cbn in Lw0.
    destruct (Ascii.eqb c' "}") eqn:C2.
    - injection H as <- <-. split; [lia|]. intros [|n] Hn; [lia|].
      cbn [parse_value]. use_eqs. reflexivity.
    - destruct (parse_members m r0) as [[ms r'']|] eqn:E2; [|discriminate].
      injection H as <- <-. destruct (IHm _ _ _ E2) as [L2 B2].
      split; [lia|]. intros [|n] Hn; [lia|].
      cbn [parse_value]. use_eqs. rewrite B2 by lia. reflexivity. }
  destruct (Ascii.eqb c "[") eqn:C3.
  { pose proof (skip_ws_length r0) as Lw0.
    destruct (skip_ws r0) as [|c' r'] eqn:E1; [discriminate|]. cbn in Lw0.
    destruct (Ascii.eqb c' "]") eqn:C2.
    - injection H as <- <-. split; [lia|]. intros [|n] Hn; [lia|].
      cbn [parse_value]. use_eqs. reflexivity.
    - destruct (parse_elements m r0) as [[vs r'']|] eqn:E2; [|discriminate].
      injection H as <- <-. destruct (IHe _ _ _ E2) as [L2 B2].
      split; [lia|]. intros [|n] Hn; [lia|].
      cbn [parse_value]. use_eqs. rewrite B2 by lia. reflexivity. }
  destruct (Ascii.eqb c quote) eqn:C4.
  { destruct (scan_string r0) as [[s r']|] eqn:E1; [|discriminate].
    injection H as <- <-. pose proof (scan_string_length _ _ _ E1).
    split; [lia|]. intros [|n] Hn; [lia|].
    cbn [parse_value]. use_eqs. reflexivity. }
  destruct (Ascii.eqb c "t") eqn:C5.
  { destruct (literal _ r0) as [r'|] eqn:E1; [|discriminate].
    injection H as <- <-. pose proof (literal_length _ _ _ E1).
    split; [lia|]. intros [|n] Hn; [lia|].
    cbn [parse_value]. use_eqs. rewrite E1. reflexivity. }
  destruct (Ascii.eqb c "f") eqn:C6.
  { destruct (literal _ r0) as [r'|] eqn:E1; [|discriminate].
    injection H as <- <-. pose proof (literal_length _ _ _ E1).
    split; [lia|]. intros [|n] Hn; [lia|].
    cbn [parse_value]. use_eqs. rewrite E1. reflexivity. }
  destruct (Ascii.eqb c "n") eqn:C7.
  { destruct (literal _ r0) as [r'|] eqn:E1; [|discriminate].
    injection H as <- <-. pose proof (literal_length _ _ _ E1).
    split; [lia|]. intros [|n] Hn; [lia|].
    cbn [parse_value]. use_eqs. rewrite E1. reflexivity. }
  destruct (scan_number (c :: r0)) as [[s r']|] eqn:E1; [|discriminate].
  injection H as <- <-. pose proof (scan_number_length _ _ _ E1) as L1. cbn in L1.
  split; [lia|]. intros [|n] Hn; [lia|].
  cbn [parse_value]. use_eqs. reflexivity.
Qed.

Lemma elements_bound_step m :
  value_bound m -> elements_bound m -> elements_bound (S m).
Proof.
  intros IHv IHe l vs r H. cbn [parse_elements] in H.
  destruct (parse_value m l) as [[v r1]|] eqn:E1; [|discriminate].
  destruct (IHv _ _ _ E1) as [L1 B1].
  pose proof (skip_ws_length r1) as Lw.
  destruct (skip_ws r1) as [|c r2] eqn:E2; [discriminate|]. cbn in Lw.
  destruct (Ascii.eqb c ",") eqn:C1.
  - destruct (parse_elements m r2) as [[vs' r3]|] eqn:E3; [|discriminate].
    injection H as <- <-. destruct (IHe _ _ _ E3) as [L3 B3].
    split; [lia|]. intros [|n] Hn; [lia|].
    cbn [parse_elements]. rewrite B1 by lia. use_eqs. rewrite B3 by lia. reflexivity.
  - destruct (Ascii.eqb c "]") eqn:C2; [|discriminate].
    injection H as <- <-. split; [lia|]. intros [|n] Hn; [lia|].
    cbn [parse_elements]. rewrite B1 by lia. use_eqs. reflexivity.
Qed.

Lemma members_bound_step m :
  value_bound m -> members_bound m -> members_bound (S m).
Proof.
  intros IHv IHm l ms r H. cbn [parse_members] in H.
  pose proof (skip_ws_length l) as Lw.
  destruct (skip_ws l) as [|q r0] eqn:E0; [discriminate|]. cbn in Lw.
  destruct (Ascii.eqb q quote) eqn:C0; [|discriminate].
  destruct (scan_string r0) as [[k r1]|] eqn:E1; [|discriminate].
  pose proof (scan_string_length _ _ _ E1) as L1.
  pose proof (skip_ws_length r1) as Lw1.
  destruct (skip_ws r1) as [|c r2] eqn:E2; [discriminate|]. cbn in Lw1.
  destruct (Ascii.eqb c ":") eqn:C1; [|discriminate].
  destruct (parse_value m r2) as [[v r3]|] eqn:E3; [|discriminate].
  destruct (IHv _ _ _ E3) as [L3 B3].
  pose proof (skip_ws_length r3) as Lw3.
  destruct (skip_ws r3) as [|c' r4] eqn:E4; [discriminate|]. cbn in Lw3.
  destruct (Ascii.eqb c' ",") eqn:C2.
  - destruct (parse_members m r4) as [[ms' r5]|] eqn:E5; [|discriminate].
    injection H as <- <-. destruct (IHm _ _ _ E5) as [L5 B5].
    split; [lia|]. intros [|n] Hn; [lia|].
    cbn [parse_members]. use_eqs. rewrite B3 by lia. use_eqs.
    rewrite B5 by lia. reflexivity.
  - destruct (Ascii.eqb c' "}") eqn:C3; [|discriminate].
    injection H as <- <-. split; [lia|]. intros [|n] Hn; [lia|].
    cbn [parse_members]. use_eqs. rewrite B3 by lia. use_eqs. reflexivity.
Qed.

Lemma parse_bounds m : value_bound m /\ elements_bound m /\ members_bound m.
Proof.
  induction m as [|m (IHv & IHe & IHm)].
  - unfold value_bound, elements_bound, members_bound.
    split; [|split]; intros l x r Hz; discriminate.
  - split; [apply value_bound_step; assumption|].
    split; [apply elements_bound_step | apply members_bound_step]; assumption.
Qed.

(** Whatever the fuel a text parses with, the fuel of [JSON.parse] is
    enough: [None] is a syntax error, never a lack of fuel. *)
Lemma parse_fuel_enough (text : string) (m : nat) (v : json) (r : list ascii) :
  parse_value m (list_ascii_of_string text) = Some (v, r) ->
  skip_ws r = [] ->
  parse text = Some v.
Proof.
  intros H Hr. destruct (parse_bounds m) as [Hv _]. destruct (Hv _ _ _ H) as [_ B].
  unfold parse. rewrite B by lia. rewrite Hr. reflexivity.
Qed.
End Fuel.

(** ** The store adapter *)

(** What [load] returns, case by case. *)
Lemma load_cases (w : Window.t) (key : string) (initialValue : json) :
  useLocalStorage.load w key initialValue
  = if Window.denied w then initialValue
    else match Window.items w !! key with
         | None => initialValue
         | Some text =>
             if not_string text then initialValue
             else match JSON.parse text with
                  | Some v => v
                  | None => initialValue
                  end
         end.
Proof.
  unfold useLocalStorage.load, useLocalStorage.mountEffect,
    useLocalStorage.initialState, getItem, JSON_parse.
  destruct (Window.denied w); [reflexivity|]. cbn [and_then].
  destruct (Window.items w !! key) as [text|]; [|reflexivity].
  destruct (not_string text); [reflexivity|].
  destruct (JSON.parse text); reflexivity.
Qed.

(** C6, as claimed, fails: the text "{}" stored under "products" parses to
    an object, which is not an array of products, and [load] returns that
    object and not the empty default. *)
Lemma load_incompatible_shape_returned :
  Window.items foreign_window !! "products" = Some "{}"
  /\ JSON.parse "{}" = Some (JObject [])
  /\ has_expected_layout "products" (JObject []) = false
  /\ useLocalStorage.load foreign_window "products" (JArray []) = JObject []
  /\ useLocalStorage.load foreign_window "products" (JArray []) <> JArray [].
Proof.
  assert (E : useLocalStorage.load foreign_window "products" (JArray []) = JObject [])
    by (vm_compute; reflexivity).
  split; [vm_compute; reflexivity|]. split; [vm_compute; reflexivity|].
  split; [vm_compute; reflexivity|]. split; [exact E|].
  rewrite E. discriminate.
Qed.

(** C6, amended. [load] is a total function, so it never raises. It returns
    the caller's default when access to the storage is denied, when nothing
    is stored under the key, when the stored text is empty and when
    [JSON.parse] fails on it. A stored text that parses is returned as
    parsed, whatever its shape: the layout of the records is not checked. *)
Theorem load_default_or_parsed (w : Window.t) (key : string) (initialValue : json) :
  (Window.denied w = true -> useLocalStorage.load w key initialValue = initialValue)
  /\ (Window.items w !! key = None ->
        useLocalStorage.load w key initialValue = initialValue)
  /\ (Window.items w !! key = Some "" ->
        useLocalStorage.load w key initialValue = initialValue)
  /\ (forall text : string,
        Window.items w !! key = Some text -> JSON.parse text = None ->
        useLocalStorage.load w key initialValue = initialValue)
  /\ (forall (text : string) (v : json),
        Window.denied w = false -> Window.items w !! key = Some text ->
        text <> "" -> JSON.parse text = Some v ->
        useLocalStorage.load w key initialValue = v).
Proof.
  rewrite load_cases. repeat split.
  - intros ->. reflexivity.
  - intros ->. destruct (Window.denied w); reflexivity.
  - intros ->. destruct (Window.denied w); reflexivity.
  - intros text -> ->. destruct (Window.denied w), (not_string text); reflexivity.
  - intros text v -> -> Hne ->. apply String.eqb_neq in Hne.
    unfold not_string. rewrite Hne. reflexivity.
Qed.

(** ** The theorems at sample data *)

Lemma sample_ids_unique : NoDup (product_ids (products sample_state)).
Proof.
  cbn. apply NoDup_cons. split.
  - intros H. apply list_elem_of_singleton in H. discriminate.
  - apply NoDup_singleton.
Defined.

Lemma sample_quantities_nonneg : quantities_nonneg (products sample_state).
Proof. cbn. repeat constructor; cbn; lia. Defined.

Lemma sample_world_fresh : uuids_fresh sample_world.
Proof.
  intros i j H. cbn in H. injection H as H. exact (pretty_nat_inj _ _ H).
Defined.

Lemma adjustStock_sequence_invariant_sample :
  Forall (fun s => quantities_nonneg (products s)) (states_after sample_calls sample_state)
  /\ adjustment_entries "p-1" (transactions (adjustStock_all sample_calls sample_state))
     = (adjustment_entries "p-1" (transactions sample_state)
        + accepted_calls "p-1" sample_calls sample_state)%nat.
Proof.
  destruct (adjustStock_sequence_invariant sample_state sample_calls
              sample_quantities_nonneg) as [H1 H2].
  split; [exact H1 | exact (H2 sample_ids_unique "p-1")].
Defined.

Lemma adjustStock_negative_rejected_sample :
  products (adjustStock "p-1" (-10) sample_state) = products sample_state
  /\ transactions (adjustStock "p-1" (-10) sample_state) = transactions sample_state.
Proof.
  assert (Hin : widget ∈ products sample_state) by (cbn; left).
  assert (Hneg : Product.quantity widget + -10 < 0) by (cbn; lia).
  destruct (adjustStock_negative_rejected sample_state widget (-10)
              sample_ids_unique Hin Hneg) as (H1 & _ & H2 & _).
  split; [exact H1 | exact H2].
Defined.

Lemma adjustStock_unknown_id_sample :
  products (adjustStock "none" 1 sample_state) = products sample_state
  /\ transactions (adjustStock "none" 1 sample_state) = transactions sample_state.
Proof.
  assert (Hnot : "none" ∉ product_ids (products sample_state)).
  { cbn. intros H. apply elem_of_cons in H as [H|H]; [discriminate|].
    apply list_elem_of_singleton in H. discriminate. }
  destruct (adjustStock_unknown_id sample_state "none" 1 Hnot) as (H1 & H2 & _).
  split; [exact H1 | exact H2].
Defined.

Lemma adjustStock_accepted_effect_sample :
  exists (p' : Product.t) (tx : Transaction.t),
    (exists l1 l2, products sample_state = l1 ++ widget :: l2
                   /\ products (adjustStock "p-1" 2 sample_state) = l1 ++ p' :: l2)
    /\ Product.quantity p' = 7
    /\ transactions (adjustStock "p-1" 2 sample_state) = tx :: transactions sample_state
    /\ Transaction.type tx = increase
    /\ Transaction.amount tx = 2.
Proof.
  assert (Hin : widget ∈ products sample_state) by (cbn; left).
  assert (Hge : 0 <= Product.quantity widget + 2) by (cbn; lia).
  destruct (adjustStock_accepted_effect sample_state widget 2
              sample_ids_unique Hin Hge)
    as (p' & tx & Hp & _ & _ & _ & _ & _ & Hq & _ & _ & H1 & H2 & _ & H3 & _).
  exists p', tx. split; [exact Hp|].
  split; [apply Hq; vm_compute; discriminate|].
  split; [exact H1|]. split; [apply H2; lia | exact H3].
Defined.

Lemma registerProduct_effect_sample :
  exists (newProduct : Product.t) (tx : Transaction.t),
    products (registerProduct "A1" "Widget" (999 # 100) 3 sample_state)
    = products sample_state ++ [newProduct]
    /\ transactions (registerProduct "A1" "Widget" (999 # 100) 3 sample_state)
       = tx :: transactions sample_state
    /\ Transaction.type tx = initial
    /\ Transaction.amount tx = 3.
Proof.
  assert (Hq : 0 <= 3) by lia.
  destruct (registerProduct_effect sample_state "A1" "Widget" (999 # 100) 3 Hq)
    as (newProduct & tx & H1 & _ & H2 & H3 & H4 & _).
  exists newProduct, tx. repeat split; assumption.
Defined.


Lemma listTransactions_pages_sample :
  length (listTransactions sample_ledger 1) = 10%nat
  /\ length (listTransactions sample_ledger 2) = 10%nat
  /\ length (listTransactions sample_ledger 3) = 5%nat
  /\ listTransactions sample_ledger 4 = listTransactions sample_ledger 3.
Proof.
  assert (Hlen : length sample_ledger = 25%nat) by reflexivity.
  destruct (listTransactions_pages sample_ledger) as [H _].
  destruct (H Hlen) as (_ & _ & _ & H4 & L1 & L2 & L3).
  repeat split; assumption.
Defined.

Lemma load_default_or_parsed_sample :
  useLocalStorage.load garbled_window "products" (JArray []) = JArray []
  /\ useLocalStorage.load foreign_window "products" (JArray []) = JObject [].
Proof.
  split.
  - destruct (load_default_or_parsed garbled_window "products" (JArray []))
      as (_ & _ & _ & H & _).
    apply (H "[1,"); vm_compute; reflexivity.
  - destruct (load_default_or_parsed foreign_window "products" (JArray []))
      as (_ & _ & _ & _ & H).
    apply (H "{}"); try (vm_compute; reflexivity). discriminate.
Defined.

Lemma registerUser_validation_sample :
  (exists message : string,
     message <> "" /\ registerUser "Ada" "" sample_state = (message, sample_state))
  /\ fst (registerUser "Ada" "a@b.com" sample_state) = "".
Proof.
  destruct (registerUser_validation "Ada" "" sample_state) as (H1 & _ & _).
  destruct (registerUser_validation "Ada" "a@b.com" sample_state) as (_ & H2 & _).
  split.
  - apply H1. right. left. reflexivity.
  - assert (Hname : "Ada" <> "") by discriminate. exact (proj1 (H2 Hname)).
Defined.

(** ** The scenario of the specification *)

(** Registering the widget with quantity 3 gives one product and one
    [initial] entry of amount 3; adding 2 gives quantity 5 and an [increase]
    entry of amount 2; taking 10 is rejected: quantity 5, ledger of length 2. *)
Example scenario_runs :
  let st1 := run (take 1 scenario) (empty_state ∅ sample_world) in
  let st2 := run (take 2 scenario) (empty_state ∅ sample_world) in
  let st3 := run scenario (empty_state ∅ sample_world) in
  map Product.quantity (products st1) = [3]
  /\ map (fun t => (Transaction.type t, Transaction.amount t)) (transactions st1)
     = [(initial, 3)]
  /\ map Product.quantity (products st2) = [5]
  /\ map (fun t => (Transaction.type t, Transaction.amount t)) (transactions st2)
     = [(increase, 2); (initial, 3)]
  /\ products st3 = products st2
  /\ transactions st3 = transactions st2.
Proof. vm_compute. repeat split; reflexivity. Qed.

(** Why the ids have to be unique: of two products sharing an id both are
    adjusted in one call, and both transactions are built on the rendered
    ledger, so that the second replaces the first. *)
Example shared_id_one_entry :
  let twins := mkApp [] [widget; Product.mk "p-1" "C3" "Twin" 1 1 "t"] [] ∅ sample_world in
  map Product.quantity (products (adjustStock "p-1" 1 twins)) = [6; 2]
  /\ map Transaction.sku (transactions (adjustStock "p-1" 1 twins)) = ["C3"].
Proof. vm_compute. split; reflexivity. Qed.

(** * Further properties *)

(** ** The low stock list of the dashboard *)

Lemma sort_insert_perm {A} (compareFn : A -> A -> Z) (x : A) (l : list A) :
  Permutation (sort_insert compareFn x l) (x :: l).
Proof.
  induction l as [|y l IH]; cbn; [reflexivity|].
  destruct (compareFn x y <=? 0); [reflexivity|].
  rewrite IH. apply perm_swap.
Qed.

Lemma sort_perm {A} (compareFn : A -> A -> Z) (l : list A) :
  Permutation (sort compareFn l) l.
Proof.
  induction l as [|x l IH]; cbn; [reflexivity|].
  unfold sort in IH. rewrite sort_insert_perm, IH. reflexivity.
Qed.

Lemma sort_insert_sorted (x : Product.t) (l : list Product.t) :
  StronglySorted (fun p q => Product.quantity p <= Product.quantity q) l ->
  StronglySorted (fun p q => Product.quantity p <= Product.quantity q)
    (sort_insert (fun a b => Product.quantity a - Product.quantity b) x l).
Proof.
  induction 1 as [|y l Hs IH Hy]; cbn.
  - constructor; constructor.
  - destruct (Product.quantity x - Product.quantity y <=? 0) eqn:E.
    + apply Z.leb_le in E. constructor; [constructor; assumption|].
      constructor; [lia|]. eapply Forall_impl; [exact Hy|]. cbn. intros z Hz. lia.
    + apply Z.leb_gt in E. constructor; [exact IH|].
      eapply Permutation_Forall; [symmetry; apply sort_insert_perm|].
      constructor; [lia | exact Hy].
Qed.

Lemma sort_insert_same_quantity (n : Z) (x : Product.t) (l : list Product.t) :
  List.filter (fun p => Product.quantity p =? n)
    (sort_insert (fun a b => Product.quantity a - Product.quantity b) x l)
  = List.filter (fun p => Product.quantity p =? n) (x :: l).
Proof.
  induction l as [|y l IH]; [reflexivity|]. cbn [sort_insert].
  destruct (Product.quantity x - Product.quantity y <=? 0) eqn:E; [reflexivity|].
  apply Z.leb_gt in E. cbn [List.filter] in *.
  destruct (Product.quantity x =? n) eqn:Ex.
  - apply Z.eqb_eq in Ex.
    assert (Ey : (Product.quantity y =? n) = false) by (apply Z.eqb_neq; lia).
    rewrite Ey. exact IH.
  - rewrite IH. reflexivity.
Qed.

(** X1. The low stock list of the dashboard holds exactly the products
    with a quantity of at most 5, each as often as the table has it, in
    ascending order of quantity, products of equal quantity in the order of
    the table; the "well-stocked" card is shown exactly when every quantity
    is above 5. *)
Theorem lowStockItems_sorted_selection (products : list Product.t) :
  StronglySorted (fun p q => Product.quantity p <= Product.quantity q)
                 (Dashboard.lowStockItems products)
  /\ Permutation (Dashboard.lowStockItems products)
                 (List.filter (fun p => Product.quantity p <=? 5) products)
  /\ (forall p : Product.t,
        p ∈ Dashboard.lowStockItems products
        <-> p ∈ products /\ Product.quantity p <= 5)
  /\ (forall n : Z,
        List.filter (fun p => Product.quantity p =? n) (Dashboard.lowStockItems products)
        = List.filter (fun p => (Product.quantity p =? n) && (Product.quantity p <=? 5))
                      products)
  /\ (Dashboard.well_stocked products = true
      <-> Forall (fun p => 5 < Product.quantity p) products).
Proof.
  assert (HP : Permutation (Dashboard.lowStockItems products)
                 (List.filter (fun p => Product.quantity p <=? 5) products))
    by apply sort_perm.
  assert (Hin : forall p : Product.t,
            p ∈ Dashboard.lowStockItems products
            <-> p ∈ products /\ Product.quantity p <= 5).
  { intros p. rewrite HP, !list_elem_of_In, filter_In, Z.leb_le. reflexivity. }
  split; [|split; [exact HP|split; [exact Hin|split]]].
  - clear HP Hin. unfold Dashboard.lowStockItems, sort.
    induction (List.filter _ products) as [|x l IH]; cbn; [constructor|].
    apply sort_insert_sorted, IH.
  - clear HP Hin. intros n. unfold Dashboard.lowStockItems, sort.
    induction products as [|x l IH]; [reflexivity|]. cbn [List.filter].
    destruct (Product.quantity x <=? 5) eqn:E5.
    + cbn [fold_right]. rewrite sort_insert_same_quantity. cbn [List.filter].
      rewrite IH, andb_true_r. reflexivity.
    + rewrite IH, andb_false_r. reflexivity.
  - unfold Dashboard.well_stocked. rewrite Nat.eqb_eq, Forall_forall. split.
    + intros H0 p Hp. destruct (Z.le_gt_cases (Product.quantity p) 5) as [Hle|Hgt]; [|lia].
      assert (Hl : p ∈ Dashboard.lowStockItems products) by (apply Hin; split; assumption).
      clear Hin HP. destruct (Dashboard.lowStockItems products); [inversion Hl | discriminate].
    + intros Hall. destruct (Dashboard.lowStockItems products) as [|p l]; [reflexivity|].
      assert (Hl : p ∈ p :: l) by left.
      apply Hin in Hl as [Hp Hq]. specialize (Hall p Hp). lia.
Qed.

(** ** One call of [adjustStock], whatever the table *)

(** The pending state while [handleAdjustStock] maps over the table: the
    ledger cell and its key in the storage are either untouched or hold one
    new transaction in front of the rendered ledger. *)
Lemma mapM_stock_step_pending rendered productId amount l s :
  let s' := snd (mapM (stock_step rendered productId amount) l s) in
  products s' = products s
  /\ localStorage s' !! "users" = localStorage s !! "users"
  /\ localStorage s' !! "products" = localStorage s !! "products"
  /\ ((transactions s' = transactions s
       /\ localStorage s' !! "transactions" = localStorage s !! "transactions")
      \/ exists tx, transactions s' = tx :: transactions rendered
           /\ localStorage s' !! "transactions"
              = Some (STransactions (tx :: transactions rendered))).
Proof.
  revert s. induction l as [|p l IH]; intros s; cbn [mapM].
  - cbn. repeat split; try reflexivity. left. split; reflexivity.
  - unfold bind, ret. destruct (accepts productId amount p) eqn:Hp.
    + rewrite stock_step_accept by assumption.
      specialize (IH (after_accept rendered s p amount)).
      destruct (mapM _ l _) as [l' s']. cbn [snd] in *.
      destruct IH as (H1 & H2 & H3 & H4).
      split; [rewrite H1; reflexivity|].
      split; [rewrite H2; cbn; apply lookup_insert_ne; discriminate|].
      split; [rewrite H3; cbn; apply lookup_insert_ne; discriminate|].
      right. destruct H4 as [[H4 H5] | H4]; [|exact H4].
      eexists. rewrite H4, H5. cbn. split; [reflexivity|]. apply lookup_insert_eq.
    + rewrite stock_step_reject by assumption.
      specialize (IH s). destruct (mapM _ l _) as [l' s']. cbn [snd] in *. exact IH.
Qed.

Lemma adjustStock_general st productId amount :
  let st' := adjustStock productId amount st in
  users st' = users st
  /\ localStorage st' !! "users" = localStorage st !! "users"
  /\ localStorage st' !! "products" = Some (SProducts (products st'))
  /\ ((transactions st' = transactions st
       /\ localStorage st' !! "transactions" = localStorage st !! "transactions")
      \/ exists tx, transactions st' = tx :: transactions st
           /\ localStorage st' !! "transactions"
              = Some (STransactions (tx :: transactions st))).
Proof.
  unfold adjustStock, dispatch. rewrite handleAdjustStock_unfold.
  unfold setProducts, setValue, bind.
  pose proof (mapM_stock_step_frame st productId amount (products st) st) as [_ Hu].
  pose proof (mapM_stock_step_pending st productId amount (products st) st)
    as (_ & H2 & _ & H4).
  destruct (mapM _ _ _) as [l' s']. cbn in *.
  split; [exact Hu|]. split; [rewrite lookup_insert_ne by discriminate; exact H2|].
  split; [apply lookup_insert_eq|].
  rewrite lookup_insert_ne by discriminate. exact H4.
Qed.

Lemma registerUser_outcome fullName email st :
  snd (registerUser fullName email st) = st
  \/ snd (registerUser fullName email st) = user_registered_state st fullName email.
Proof.
  unfold registerUser, UserRegistrationForm.handleSubmit.
  cbn [UserRegistrationForm.fullName UserRegistrationForm.email].
  destruct (not_string fullName || not_string email); [left; reflexivity|].
  destruct (negb (RegExp.test email_regexp email)); [left; reflexivity|].
  right. cbn [snd]. apply handleRegisterUser_state.
Qed.

(** ** The tables only grow *)

Lemma exec_grows (c : Command) (st : AppState) :
  (exists newer, transactions (exec c st) = newer ++ transactions st
                 /\ (length newer <= 1)%nat)
  /\ (exists added, users (exec c st) = users st ++ added)
  /\ (exists added,
        product_ids (products (exec c st)) = product_ids (products st) ++ added).
Proof.
  destruct c as [fullName email | sku name price quantity | productId delta]; cbn [exec].
  - destruct (registerUser_outcome fullName email st) as [-> | ->].
    + split; [exists []; split; [reflexivity | cbn; lia]|].
      split; exists []; rewrite app_nil_r; reflexivity.
    + cbn. split; [exists []; split; [reflexivity | cbn; lia]|].
      split; [eexists; reflexivity | exists []; rewrite app_nil_r; reflexivity].
  - rewrite registerProduct_state. unfold registered_state. cbn.
    split; [eexists [_]; split; [reflexivity | cbn; lia]|].
    split; [exists []; rewrite app_nil_r; reflexivity|].
    unfold product_ids. rewrite fmap_app. eexists. reflexivity.
  - destruct (adjustStock_general st productId delta) as (Hu & _ & _ & Ht).
    split; [|split].
    + destruct Ht as [[-> _] | (tx & -> & _)].
      * exists []. split; [reflexivity | cbn; lia].
      * exists [tx]. split; [reflexivity | cbn; lia].
    + exists []. rewrite app_nil_r. exact Hu.
    + exists []. rewrite app_nil_r. apply adjustStock_keeps_ids.
Qed.

(** X2. Whatever the state and the commands, the tables only grow: the
    ledger of before is the tail of the ledger afterwards, with at most one
    new entry per command in front of it; the users of before are the head
    of the users afterwards; and the products keep their ids and positions,
    new ones coming at the end. No record is removed and no ledger entry or
    user is changed. *)
Theorem tables_only_grow (cmds : list Command) (st : AppState) :
  (exists newer, transactions (run cmds st) = newer ++ transactions st
                 /\ (length newer <= length cmds)%nat)
  /\ (exists added, users (run cmds st) = users st ++ added)
  /\ (exists added,
        product_ids (products (run cmds st)) = product_ids (products st) ++ added).
Proof.
  revert st. induction cmds as [|c cmds IH]; intros st.
  - cbn. split; [exists []; split; [reflexivity | cbn; lia]|].
    split; exists []; rewrite app_nil_r; reflexivity.
  - unfold run. cbn [fold_left]. fold (run cmds (exec c st)).
    destruct (IH (exec c st)) as ((n2 & Ht2 & Hl2) & (u2 & Hu2) & (p2 & Hp2)).
    destruct (exec_grows c st) as ((n1 & Ht1 & Hl1) & (u1 & Hu1) & (p1 & Hp1)).
    split; [|split].
    + exists (n2 ++ n1). rewrite Ht2, Ht1, app_assoc. split; [reflexivity|].
      rewrite length_app. cbn. lia.
    + exists (u1 ++ u2). rewrite Hu2, Hu1, app_assoc. reflexivity.
    + exists (p1 ++ p2). rewrite Hp2, Hp1, app_assoc. reflexivity.
Qed.

(** ** The buttons of the product list *)

(** X4. In a table with unique ids and no negative quantity, a click on a
    button of a row that is not disabled is never rejected: the product of
    the row gets, in place, the sum of its quantity and 1 or -1 as the
    handler computes it, and the clock's reading as lastUpdated; that sum is
    one unit more or less whenever it is at most 2^53, and it is never
    negative. The other rows stay as they are, and the ledger gets exactly
    one entry in front, of amount 1 and of type [increase] for the plus and
    [decrease] for the minus button. *)
Theorem productList_click_effect (st : AppState) (row : nat) (b : ProductList.Button)
    (p : Product.t) :
  NoDup (product_ids (products st)) ->
  quantities_nonneg (products st) ->
  products st !! row = Some p ->
  ProductList.disabled b p = false ->
  let w := world st in
  let st' := ProductList.click row b st in
  let p' := updatedProduct p (ProductList.amount b) (date_tape w (date_pos w)) in
  products st' = <[row := p']> (products st)
  /\ Product.quantity p' = Number_add (Product.quantity p) (ProductList.amount b)
  /\ (Product.quantity p + ProductList.amount b <= 2 ^ 53 ->
      Product.quantity p' = Product.quantity p + ProductList.amount b)
  /\ 0 <= Product.quantity p'
  /\ transactions st'
     = Transaction.mk (uuid_tape w (uuid_pos w)) (Product.id p) (Product.sku p)
         (Product.name p)
         (match b with ProductList.Plus => increase | ProductList.Minus => decrease end)
         1 (date_tape w (S (date_pos w)))
       :: transactions st
  /\ users st' = users st.
Proof.
  intros Hnd Hq Hrow Hdis w st' p'.
  assert (Hge : 0 <= Product.quantity p + ProductList.amount b).
  { unfold quantities_nonneg in Hq. rewrite Forall_forall in Hq.
    pose proof (Hq p (list_elem_of_lookup_2 _ _ _ Hrow)) as Hp.
    destruct b; cbn in *; [apply Z.leb_gt in Hdis; lia | lia]. }
  destruct (list_elem_of_split_length _ _ _ Hrow) as (l1 & l2 & E & Hlen).
  assert (Hother : Forall (fun x => Product.id x <> Product.id p) (l1 ++ l2))
    by (apply ids_middle; rewrite <- E; exact Hnd).
  apply Forall_app in Hother as [H1 H2].
  assert (Est : st' = accepted_state st l1 p l2 (ProductList.amount b)).
  { subst st'. unfold ProductList.click. rewrite Hrow, Hdis.
    apply adjustStock_accepted; try assumption.
    - apply other_id_rejects, H1.
    - unfold accepts. rewrite String.eqb_refl.
      apply Z.ltb_ge in Hge. rewrite Hge. reflexivity.
    - apply other_id_rejects, H2. }
  rewrite Est. unfold accepted_state. fold w. fold p'. cbn [products transactions users].
  split; [|split; [reflexivity|split; [|split; [|split; [|reflexivity]]]]].
  - rewrite E, Hlen. replace (length l1) with (length l1 + 0)%nat by lia.
    rewrite insert_app_r. reflexivity.
  - intros Hle. subst p'. cbn [updatedProduct Product.quantity].
    apply Number_add_exact. lia.
  - subst p'. cbn [updatedProduct Product.quantity]. apply Number_add_nonneg, Hge.
  - destruct b; reflexivity.
Qed.

Lemma productList_click_effect_sample :
  products (ProductList.click 0 ProductList.Minus sample_state)
  = <[0%nat := updatedProduct widget (-1) "time-0"]> (products sample_state)
  /\ Product.quantity (updatedProduct widget (-1) "time-0") = 5 + -1.
Proof.
  assert (Hrow : products sample_state !! 0%nat = Some widget) by reflexivity.
  assert (Hdis : ProductList.disabled ProductList.Minus widget = false) by reflexivity.
  destruct (productList_click_effect sample_state 0 ProductList.Minus widget
              sample_ids_unique sample_quantities_nonneg Hrow Hdis)
    as (Hp & _ & Hexact & _).
  split; [exact Hp|]. apply Hexact. vm_compute. discriminate.
Defined.

(** At 2^53 the plus button is not disabled and its click is recorded as an
    [increase] of 1, and the quantity shown stays 2^53. *)
Example plus_button_at_2_53 :
  ProductList.disabled ProductList.Plus pallet = false
  /\ map Product.quantity (products (ProductList.click 0 ProductList.Plus pallet_state))
     = [2 ^ 53]
  /\ map (fun tx => (Transaction.type tx, Transaction.amount tx))
         (transactions (ProductList.click 0 ProductList.Plus pallet_state))
     = [(increase, 1)].
Proof. vm_compute. repeat split; reflexivity. Qed.

(** ** The ids of the records *)

Lemma issued_next tape pos ids :
  (forall i j : nat, tape i = tape j -> i = j) ->
  issued tape pos ids -> issued tape (S pos) (tape pos :: ids).
Proof.
  intros Hfresh [Hnd Hlt]. split.
  - apply NoDup_cons. split; [|exact Hnd].
    intros Hin. destruct (Hlt _ Hin) as (i & Hi & Heq). apply Hfresh in Heq. lia.
  - intros id Hin. apply elem_of_cons in Hin as [-> | Hin].
    + exists pos. split; [lia | reflexivity].
    + destruct (Hlt _ Hin) as (i & Hi & Heq). exists i. split; [lia | exact Heq].
Qed.

Lemma issued_perm tape pos ids ids' :
  Permutation ids' ids -> issued tape pos ids -> issued tape pos ids'.
Proof.
  intros HP [Hnd Hlt]. split.
  - rewrite HP. exact Hnd.
  - intros id Hin. rewrite HP in Hin. apply Hlt, Hin.
Qed.

Lemma issued_product_ids tape pos st :
  issued tape pos (all_ids st) -> NoDup (product_ids (products st)).
Proof.
  intros [Hnd _]. unfold all_ids in Hnd.
  apply NoDup_app in Hnd as (_ & _ & Hnd). apply NoDup_app in Hnd as (Hnd & _ & _).
  exact Hnd.
Qed.

Lemma exec_issued tape (c : Command) (st : AppState) :
  (forall i j : nat, tape i = tape j -> i = j) ->
  uuid_tape (world st) = tape ->
  issued tape (uuid_pos (world st)) (all_ids st) ->
  uuid_tape (world (exec c st)) = tape
  /\ issued tape (uuid_pos (world (exec c st))) (all_ids (exec c st)).
Proof.
  intros Hfresh Ht H.
  assert (Huser : forall fullName email,
    uuid_tape (world (user_registered_state st fullName email)) = tape
    /\ issued tape (uuid_pos (world (user_registered_state st fullName email)))
              (all_ids (user_registered_state st fullName email))).
  { intros fullName email. unfold user_registered_state, all_ids. cbn.
    split; [exact Ht|]. rewrite Ht.
    eapply issued_perm; [|apply issued_next; [exact Hfresh | exact H]].
    unfold all_ids. rewrite fmap_app. cbn.
    rewrite <- (Permutation_cons_append (User.id <$> users st)). reflexivity. }
  destruct c as [fullName email | sku name price quantity | productId delta]; cbn [exec].
  - destruct (registerUser_outcome fullName email st) as [-> | ->];
      [split; assumption | apply Huser].
  - rewrite registerProduct_state. unfold registered_state, all_ids. cbn.
    split; [exact Ht|]. rewrite Ht.
    eapply issued_perm;
      [|apply issued_next; [exact Hfresh | apply issued_next; [exact Hfresh | exact H]]].
    unfold all_ids. rewrite fmap_app. cbn.
    rewrite <- (Permutation_cons_append (Product.id <$> products st)). cbn.
    rewrite <- !Permutation_middle. apply perm_swap.
  - destruct (adjustStock_cases st productId delta (issued_product_ids _ _ _ H))
      as [[_ ->] | (l1 & p & l2 & _ & E & _ & _ & ->)].
    + split; assumption.
    + unfold accepted_state, all_ids. cbn. split; [exact Ht|]. rewrite Ht.
      eapply issued_perm; [|apply issued_next; [exact Hfresh | exact H]].
      unfold all_ids. rewrite E, !fmap_app, !fmap_cons. cbn.
      rewrite <- !Permutation_middle. reflexivity.
Qed.

(** X5. From an empty state, with UUIDs that never repeat, every record
    of the three tables has an id of its own after any sequence of commands:
    no two users, products or transactions, of one table or of two, share an
    id. *)
Theorem record_ids_unique (storage : gmap string Stored) (w : World)
    (cmds : list Command) :
  uuids_fresh w ->
  NoDup (all_ids (run cmds (empty_state storage w))).
Proof.
  intros Hfresh.
  assert (H : forall st,
    uuid_tape (world st) = uuid_tape w ->
    issued (uuid_tape w) (uuid_pos (world st)) (all_ids st) ->
    issued (uuid_tape w) (uuid_pos (world (run cmds st))) (all_ids (run cmds st))).
  { induction cmds as [|c cmds IH]; intros st Ht Hi; [exact Hi|].
    unfold run. cbn [fold_left]. fold (run cmds (exec c st)).
    destruct (exec_issued (uuid_tape w) c st Hfresh Ht Hi) as [Ht' Hi'].
    apply IH; assumption. }
  apply (H (empty_state storage w)); [reflexivity|].
  split; [constructor|]. intros id Hin. inversion Hin.
Qed.

Lemma record_ids_unique_sample :
  NoDup (all_ids (run scenario (empty_state ∅ sample_world))).
Proof. exact (record_ids_unique ∅ sample_world scenario sample_world_fresh). Defined.

(** ** The units of the dashboard and the amounts of the history *)

Lemma exact_units_app (l1 l2 : list Product.t) :
  exact_units (l1 ++ l2) = exact_units l1 + exact_units l2.
Proof.
  unfold exact_units. induction l1 as [|p l1 IH]; cbn [app fold_right]; lia.
Qed.

Lemma exact_units_nonneg (l : list Product.t) :
  quantities_nonneg l -> 0 <= exact_units l.
Proof.
  induction 1 as [|p l Hp _ IH]; [reflexivity|].
  unfold exact_units in *. cbn [fold_right]. lia.
Qed.

Lemma totalUnits_from (l : list Product.t) (a : Z) :
  quantities_nonneg l -> 0 <= a -> a + exact_units l <= 2 ^ 53 ->
  fold_left (fun sum p => Number_add sum (Product.quantity p)) l a
  = a + exact_units l.
Proof.
  intros Hq. revert a.
  induction Hq as [|p l Hp Hl IH]; intros a Ha Hle; cbn [fold_left].
  - unfold exact_units. cbn. lia.
  - pose proof (exact_units_nonneg l Hl) as Hnn.
    change (exact_units (p :: l)) with (Product.quantity p + exact_units l) in *.
    rewrite Number_add_exact by lia. rewrite IH by lia. lia.
Qed.

Lemma totalUnits_exact (l : list Product.t) :
  quantities_nonneg l -> exact_units l <= 2 ^ 53 ->
  Dashboard.totalUnits l = exact_units l.
Proof.
  intros Hq Hle. unfold Dashboard.totalUnits.
  rewrite totalUnits_from by (try assumption; lia). lia.
Qed.

Lemma totalUnits_nonneg (l : list Product.t) :
  quantities_nonneg l -> 0 <= Dashboard.totalUnits l.
Proof.
  intros Hq. unfold Dashboard.totalUnits.
  assert (H : forall a, 0 <= a ->
            0 <= fold_left (fun sum p => Number_add sum (Product.quantity p)) l a).
  { induction Hq as [|p l Hp _ IH]; intros a Ha; cbn [fold_left]; [exact Ha|].
    apply IH, Number_add_nonneg. lia. }
  apply H. lia.
Qed.

Lemma shown_total_le_inflow (ledger : list Transaction.t) :
  Forall (fun t => 0 <= Transaction.amount t) ledger ->
  shown_total ledger <= inflow ledger.
Proof.
  induction 1 as [|t l Ht _ IH]; [reflexivity|].
  unfold shown_total, inflow, shown_amount in *. cbn [fold_right].
  destruct (Transaction.type t); lia.
Qed.

Lemma inflow_nonneg (ledger : list Transaction.t) :
  Forall (fun t => 0 <= Transaction.amount t) ledger -> 0 <= inflow ledger.
Proof.
  induction 1 as [|t l Ht _ IH]; [reflexivity|].
  unfold inflow in *. cbn [fold_right]. destruct (Transaction.type t); lia.
Qed.

Lemma inflow_cons (tx : Transaction.t) (ledger : list Transaction.t) :
  inflow (tx :: ledger)
  = match Transaction.type tx with
    | decrease => inflow ledger
    | _ => Transaction.amount tx + inflow ledger
    end.
Proof. reflexivity. Qed.

Lemma shown_total_cons (tx : Transaction.t) (ledger : list Transaction.t) :
  shown_total (tx :: ledger) = shown_amount tx + shown_total ledger.
Proof. reflexivity. Qed.

Lemma exact_units_cons (p : Product.t) (l : list Product.t) :
  exact_units (p :: l) = Product.quantity p + exact_units l.
Proof. reflexivity. Qed.

Lemma exec_balance tape (c : Command) (st : AppState) :
  (forall i j : nat, tape i = tape j -> i = j) ->
  valid_command c ->
  books_balance tape st -> books_balance tape (exec c st).
Proof.
  intros Hfresh Hc (Hcons & Hq & Hsum).
  destruct c as [fullName email | sku name price quantity | productId delta]; cbn [exec].
  - split; [apply consistent_registerUser, Hcons|].
    destruct (registerUser_outcome fullName email st) as [-> | ->];
      split; assumption.
  - destruct Hc as (_ & _ & _ & Hge).
    split; [apply consistent_registerProduct; assumption|].
    destruct Hcons as (_ & _ & _ & _ & _ & Hamt).
    pose proof (inflow_nonneg _ Hamt) as Hin.
    rewrite registerProduct_state. unfold registered_state.
    cbn [products transactions]. split.
    + apply Forall_app. split; [exact Hq|]. constructor; [exact Hge | constructor].
    + rewrite exact_units_app, exact_units_cons, inflow_cons, shown_total_cons.
      unfold shown_amount, newTransaction.
      cbn [Transaction.type Transaction.amount Product.quantity].
      change (exact_units []) with 0.
      rewrite Z.abs_eq by exact Hge. intros Hle.
      rewrite Hsum by lia. lia.
  - split; [apply consistent_adjustStock; assumption|].
    split; [apply adjustStock_keeps_nonneg, Hq|].
    destruct Hcons as (_ & Hnd & _ & _ & _ & Hamt).
    pose proof (shown_total_le_inflow _ Hamt) as Hshown.
    destruct (adjustStock_cases st productId delta Hnd)
      as [[_ ->] | (l1 & p & l2 & _ & E & _ & Hge & ->)]; [exact Hsum|].
    unfold accepted_state. cbn [products transactions].
    rewrite E in Hsum, Hq. rewrite exact_units_app, exact_units_cons in *.
    apply Forall_app in Hq as [Hq1 Hq2]. apply Forall_cons in Hq2 as [Hp Hq2].
    pose proof (exact_units_nonneg _ Hq1) as Hn1.
    pose proof (exact_units_nonneg _ Hq2) as Hn2.
    rewrite inflow_cons, shown_total_cons.
    unfold shown_amount, newTransaction, updatedProduct.
    cbn [Transaction.type Transaction.amount Product.quantity].
    destruct (delta >? 0) eqn:G.
    + apply Z.gtb_lt in G. intros Hle.
      rewrite Number_add_exact by lia. lia.
    + rewrite Z.gtb_ltb in G. apply Z.ltb_ge in G. intros Hle.
      rewrite Number_add_exact by lia. lia.
Qed.

(** X6. From an empty state, with UUIDs that never repeat and valid input
    to [registerProduct], after any sequence of commands no quantity is
    negative and the "Total Units" of the dashboard is not negative; and as
    long as the amounts of the [initial] and [increase] entries of the
    ledger add up to at most 2^53, where the sums of the handlers and of the
    dashboard are exact, the "Total Units" is the sum of the amounts of the
    ledger with the signs the history shows them with (minus for a
    decrease, plus otherwise). *)
Theorem totalUnits_is_ledger_total (storage : gmap string Stored) (w : World)
    (cmds : list Command) :
  uuids_fresh w ->
  Forall valid_command cmds ->
  let st := run cmds (empty_state storage w) in
  quantities_nonneg (products st)
  /\ 0 <= Dashboard.totalUnits (products st)
  /\ (inflow (transactions st) <= 2 ^ 53 ->
      Dashboard.totalUnits (products st) = shown_total (transactions st)).
Proof.
  intros Hfresh Hvalid st.
  assert (H : books_balance (uuid_tape w) st).
  { subst st. assert (H0 : books_balance (uuid_tape w) (empty_state storage w)).
    { split; [apply consistent_empty; reflexivity|].
      split; [constructor | reflexivity]. }
    revert H0. generalize (empty_state storage w).
    induction Hvalid as [|c cmds Hc _ IH]; intros st0 H0; [exact H0|].
    unfold run. cbn [fold_left]. apply IH, exec_balance; assumption. }
  destruct H as (Hcons & Hq & Hsum).
  split; [exact Hq|]. split; [apply totalUnits_nonneg, Hq|].
  intros Hle. destruct Hcons as (_ & _ & _ & _ & _ & Hamt).
  pose proof (shown_total_le_inflow _ Hamt) as Hshown.
  rewrite totalUnits_exact; [apply Hsum, Hle | exact Hq |].
  rewrite Hsum by exact Hle. lia.
Qed.

Lemma totalUnits_is_ledger_total_sample :
  Dashboard.totalUnits (products (run scenario (empty_state ∅ sample_world)))
  = shown_total (transactions (run scenario (empty_state ∅ sample_world))).
Proof.
  assert (Hvalid : Forall valid_command scenario).
  { unfold scenario. repeat constructor; cbn; try discriminate; try lia. }
  destruct (totalUnits_is_ledger_total ∅ sample_world scenario
              sample_world_fresh Hvalid) as (_ & _ & H).
  apply H. vm_compute. discriminate.
Defined.

(** Past 2^53 the two part: with 2^53 registered and 1 added, the history
    shows 2^53 + 1 and the dashboard 2^53. *)
Example totalUnits_behind_ledger :
  Dashboard.totalUnits (products (run pallet_scenario (empty_state ∅ sample_world)))
  = 2 ^ 53
  /\ shown_total (transactions (run pallet_scenario (empty_state ∅ sample_world)))
     = 2 ^ 53 + 1.
Proof. vm_compute. split; reflexivity. Qed.

(** ** The pages of the history *)

Lemma page_rows (txs : list Transaction.t) (k : nat) :
  TransactionHistory.currentTransactions txs (Z.of_nat (S k))
  = take 10 (drop (10 * k) txs).
Proof.
  unfold TransactionHistory.currentTransactions, ITEMS_PER_PAGE.
  rewrite slice_window by lia. f_equal; [|f_equal]; lia.
Qed.

Lemma chunks_concat {A} (m : nat) : forall l : list A,
  (length l <= 10 * m)%nat ->
  concat (map (fun k => take 10 (drop (10 * k) l)) (seq 0 m)) = l.
Proof.
  induction m as [|m IH]; intros l Hl.
  - destruct l; [reflexivity | cbn in Hl; lia].
  - cbn [seq map concat]. rewrite <- seq_shift, map_map.
    rewrite (map_ext _ (fun k => take 10 (drop (10 * k) (drop 10 l)))).
    + rewrite IH by (rewrite length_drop; lia). cbn [Nat.mul drop]. apply take_drop.
    + intros k. rewrite drop_drop. f_equal. f_equal. lia.
Qed.

(** X7. The pages of the history, put one after the other, are the whole
    ledger in its order: every transaction is on exactly one page. There are
    [totalPages] pages, none of them empty and each with 10 rows but possibly
    the last; a page number beyond the last page shows no row. *)
Theorem history_pages_partition (txs : list Transaction.t) :
  concat (all_pages txs) = txs
  /\ length (all_pages txs) = Z.to_nat (TransactionHistory.totalPages txs)
  /\ (forall page : Z,
        1 <= page <= TransactionHistory.totalPages txs ->
        (1 <= length (TransactionHistory.currentTransactions txs page) <= 10)%nat)
  /\ (forall page : Z,
        1 <= page < TransactionHistory.totalPages txs ->
        length (TransactionHistory.currentTransactions txs page) = 10%nat)
  /\ (forall page : Z,
        TransactionHistory.totalPages txs < page ->
        TransactionHistory.currentTransactions txs page = []).
Proof.
  pose proof (totalPages_ceil txs) as HT.
  assert (Hlen : forall page : Z, 1 <= page ->
            length (TransactionHistory.currentTransactions txs page)
            = Nat.min 10 (length txs - 10 * Z.to_nat (page - 1))).
  { intros page Hp. replace page with (Z.of_nat (S (Z.to_nat (page - 1)))) at 1 by lia.
    rewrite page_rows, length_take, length_drop. reflexivity. }
  split; [|split; [|split; [|split]]].
  - unfold all_pages. rewrite <- seq_shift, map_map.
    rewrite (map_ext _ (fun k => take 10 (drop (10 * k) txs))) by (intros k; apply page_rows).
    apply chunks_concat. rewrite HT. Z.div_mod_to_equations. lia.
  - unfold all_pages. rewrite length_map, length_seq. reflexivity.
  - intros page Hp. rewrite Hlen by lia. rewrite HT in Hp.
    Z.div_mod_to_equations. lia.
  - intros page Hp. rewrite Hlen by lia. rewrite HT in Hp.
    Z.div_mod_to_equations. lia.
  - intros page Hp. assert (H0 : 0 <= TransactionHistory.totalPages txs)
      by (rewrite HT; Z.div_mod_to_equations; lia).
    apply length_zero_iff_nil. rewrite Hlen by lia. rewrite HT in Hp.
    Z.div_mod_to_equations. lia.
Qed.

Lemma history_pages_partition_sample :
  length (TransactionHistory.currentTransactions sample_ledger 2) = 10%nat.
Proof.
  destruct (history_pages_partition sample_ledger) as (_ & _ & _ & H & _).
  apply H. vm_compute. split; [discriminate | reflexivity].
Defined.

(** X8. Inside the range of the pages the two buttons undo each other:
    "Previous" after a "Next" that moved, and "Next" after a "Previous" that
    moved, lead back to the page one started from. On the first page
    "Previous", and on the last page "Next", leave the page as it is. *)
Theorem history_buttons_inverse (txs : list Transaction.t) (page : Z) :
  1 <= page <= TransactionHistory.totalPages txs ->
  (page < TransactionHistory.totalPages txs ->
     TransactionHistory.click txs TransactionHistory.Next page = page + 1
     /\ TransactionHistory.click txs TransactionHistory.Previous
          (TransactionHistory.click txs TransactionHistory.Next page) = page)
  /\ (1 < page ->
        TransactionHistory.click txs TransactionHistory.Previous page = page - 1
        /\ TransactionHistory.click txs TransactionHistory.Next
             (TransactionHistory.click txs TransactionHistory.Previous page) = page)
  /\ TransactionHistory.click txs TransactionHistory.Previous 1 = 1
  /\ TransactionHistory.click txs TransactionHistory.Next
       (TransactionHistory.totalPages txs) = TransactionHistory.totalPages txs.
Proof.
  unfold TransactionHistory.click, TransactionHistory.handleNextPage,
    TransactionHistory.handlePrevPage.
  generalize (TransactionHistory.totalPages txs). intros T H.
  destruct (T >? 1) eqn:G.
  - apply Z.gtb_lt in G. rewrite (Z.eqb_refl T). cbn [Z.eqb Pos.eqb].
    split; [|split; [|split; reflexivity]].
    + intros Hlt. destruct (page =? T) eqn:E1; [apply Z.eqb_eq in E1; lia|].
      rewrite Z.min_l by lia.
      destruct (page + 1 =? 1) eqn:E2; [apply Z.eqb_eq in E2; lia|].
      split; [reflexivity | lia].
    + intros Hgt. destruct (page =? 1) eqn:E1; [apply Z.eqb_eq in E1; lia|].
      rewrite Z.max_l by lia.
      destruct (page - 1 =? T) eqn:E2; [apply Z.eqb_eq in E2; lia|].
      split; [reflexivity | lia].
  - rewrite Z.gtb_ltb in G. apply Z.ltb_ge in G.
    split; [intros; lia|]. split; [intros; lia|]. split; reflexivity.
Qed.

Lemma history_buttons_inverse_sample :
  TransactionHistory.click sample_ledger TransactionHistory.Previous
    (TransactionHistory.click sample_ledger TransactionHistory.Next 2) = 2.
Proof.
  assert (H : 1 <= 2 <= TransactionHistory.totalPages sample_ledger)
    by (vm_compute; split; discriminate).
  destruct (history_buttons_inverse sample_ledger 2 H) as (H1 & _).
  apply H1. vm_compute. reflexivity.
Defined.

(** ** The emails the form accepts *)

Lemma nullable_complete r s : lang r s -> s = [] -> RegExp.nullable r = true.
Proof.
  induction 1 as [|p c E|r1 r2 s1 s2 _ IH1 _ IH2|r1 r2 s _ IH|r1 r2 s _ IH| |];
    intros Hs; cbn; try reflexivity.
  - discriminate.
  - apply app_eq_nil in Hs as [-> ->]. rewrite IH1, IH2; reflexivity.
  - rewrite IH by exact Hs. reflexivity.
  - rewrite IH by exact Hs. apply orb_true_r.
Qed.

Lemma deriv_complete c r s' :
  lang r s' -> forall s, s' = c :: s -> lang (RegExp.deriv c r) s.
Proof.
  induction 1 as [|p c' E|r1 r2 s1 s2 H1 IH1 H2 IH2|r1 r2 s0 _ IH|r1 r2 s0 _ IH|
                  |r0 s1 s2 H1 IH1 H2 IH2]; intros s Hs; cbn.
  - discriminate.
  - injection Hs as -> <-. rewrite E. constructor.
  - destruct s1 as [|c1 s1].
    + cbn in Hs. rewrite (nullable_complete _ _ H1 eq_refl).
      apply lang_Alt_r, IH2, Hs.
    + cbn in Hs. injection Hs as -> <-.
      destruct (RegExp.nullable r1);
        [apply lang_Alt_l|]; constructor; auto.
  - apply lang_Alt_l, IH, Hs.
  - apply lang_Alt_r, IH, Hs.
  - discriminate.
  - destruct s1 as [|c1 s1].
    + cbn in Hs. apply IH2, Hs.
    + cbn in Hs. injection Hs as -> <-. constructor; auto.
Qed.

Lemma matches_complete s : forall r, lang r s -> RegExp.matches r s = true.
Proof.
  induction s as [|c s IH]; cbn; intros r H.
  - eapply nullable_complete; [exact H | reflexivity].
  - apply IH. eapply deriv_complete; [exact H | reflexivity].
Qed.

Lemma lang_star_S_of s : no_whitespace s -> lang (RegExp.Star RegExp.S_) s.
Proof.
  induction 1 as [|c s Hc _ IH]; [constructor|].
  change (c :: s) with ([c] ++ s). constructor; [|exact IH].
  constructor. rewrite Hc. reflexivity.
Qed.

Lemma lang_plus_S_of s : s <> [] -> no_whitespace s -> lang (RegExp.plus RegExp.S_) s.
Proof.
  intros Hne Hs. destruct s as [|c s]; [contradiction|].
  apply Forall_cons in Hs as [Hc Hs].
  change (c :: s) with ([c] ++ s). constructor; [|apply lang_star_S_of, Hs].
  constructor. rewrite Hc. reflexivity.
Qed.

Lemma lang_email_regexp s : lang email_regexp s <-> email_shape s.
Proof.
  split.
  - unfold email_regexp. intros H.
    inversion H as [| |? ? a s1 Ha Rest1| | | |]; subst.
    inversion Rest1 as [| |? ? at_ s2 Hat Rest2| | | |]; subst.
    inversion Rest2 as [| |? ? b s3 Hb Rest3| | | |]; subst.
    inversion Rest3 as [| |? ? dot c Hdot Hc| | | |]; subst.
    apply lang_chr in Hat, Hdot. subst at_ dot.
    apply lang_plus_S in Ha as [Ha1 Ha2], Hb as [Hb1 Hb2], Hc as [Hc1 Hc2].
    exists a, b, c. repeat split; assumption.
  - intros (a & b & c & -> & Ha & Hb & Hc & Wa & Wb & Wc). unfold email_regexp.
    constructor; [apply lang_plus_S_of; assumption|].
    change ("@"%char :: b ++ "."%char :: c) with (["@"%char] ++ b ++ ["."%char] ++ c).
    constructor; [constructor; reflexivity|].
    constructor; [apply lang_plus_S_of; assumption|].
    constructor; [constructor; reflexivity | apply lang_plus_S_of; assumption].
Qed.

Lemma email_test_shape (email : string) :
  RegExp.test email_regexp email = true <-> email_shape (list_ascii_of_string email).
Proof.
  unfold RegExp.test. rewrite <- lang_email_regexp. split.
  - apply matches_sound.
  - apply matches_complete.
Qed.

Lemma registerUser_decided (fullName email : string) (app : AppState) :
  (fullName <> "" -> RegExp.test email_regexp email = true ->
     registerUser fullName email app = ("", user_registered_state app fullName email))
  /\ (fullName = "" \/ RegExp.test email_regexp email = false ->
        exists message : string,
          message <> "" /\ registerUser fullName email app = (message, app)).
Proof.
  unfold registerUser, UserRegistrationForm.handleSubmit.
  cbn [UserRegistrationForm.fullName UserRegistrationForm.email].
  destruct (not_string fullName || not_string email) eqn:E1.
  - split.
    + intros Hn Ht. exfalso. apply orb_true_iff in E1 as [E|E];
        unfold not_string in E; apply String.eqb_eq in E; subst; [contradiction|].
      vm_compute in Ht. discriminate.
    + intros _. eexists. split; [|reflexivity]. discriminate.
  - apply orb_false_iff in E1 as [En Ee]. unfold not_string in En.
    apply String.eqb_neq in En.
    destruct (RegExp.test email_regexp email); cbn [negb]; split.
    + intros _ _. cbn [UserRegistrationForm.error]. rewrite handleRegisterUser_state.
      reflexivity.
    + intros [H|H]; [contradiction | discriminate].
    + intros _ H. discriminate.
    + intros _. eexists. split; [|reflexivity]. discriminate.
Qed.

(** X9. The registration form accepts a submission exactly when the full
    name is not empty and the email is of the shape [a@b.c], with [a], [b]
    and [c] not empty and no whitespace anywhere. An accepted submission
    appends one user with that name and email, a fresh id and the clock's
    reading, to the end of the users, and clears the form's error; a rejected
    one shows an error and leaves the state as it is. Products and ledger
    are never touched. *)
Theorem registerUser_accepts_exactly (fullName email : string) (app : AppState) :
  let w := world app in
  (fullName <> "" /\ email_shape (list_ascii_of_string email) ->
     fst (registerUser fullName email app) = ""
     /\ users (snd (registerUser fullName email app))
        = users app ++ [User.mk (uuid_tape w (uuid_pos w)) fullName email
                                (date_tape w (date_pos w))])
  /\ (~ (fullName <> "" /\ email_shape (list_ascii_of_string email)) ->
        fst (registerUser fullName email app) <> ""
        /\ snd (registerUser fullName email app) = app)
  /\ products (snd (registerUser fullName email app)) = products app
  /\ transactions (snd (registerUser fullName email app)) = transactions app.
Proof.
  intros w. destruct (registerUser_decided fullName email app) as [Hyes Hno].
  split; [|split].
  - intros [Hn Hs]. apply email_test_shape in Hs. rewrite (Hyes Hn Hs). cbn.
    split; reflexivity.
  - intros Hnot.
    assert (Hrej : fullName = "" \/ RegExp.test email_regexp email = false).
    { destruct (String.eqb fullName "") eqn:En; [left; apply String.eqb_eq, En|].
      apply String.eqb_neq in En. right.
      destruct (RegExp.test email_regexp email) eqn:Et; [|reflexivity].
      exfalso. apply Hnot. split; [exact En | apply email_test_shape, Et]. }
    destruct (Hno Hrej) as (message & Hm & ->). split; [exact Hm | reflexivity].
  - destruct (registerUser_outcome fullName email app) as [-> | ->];
      split; reflexivity.
Qed.

Lemma registerUser_accepts_exactly_sample :
  fst (registerUser "Ada" "ada@example.org" sample_state) = ""
  /\ snd (registerUser "Ada" "a b@example.org" sample_state) = sample_state.
Proof.
  destruct (registerUser_accepts_exactly "Ada" "ada@example.org" sample_state)
    as (H1 & _).
  destruct (registerUser_accepts_exactly "Ada" "a b@example.org" sample_state)
    as (_ & H2 & _).
  split.
  - apply H1. split; [discriminate|]. apply email_test_shape. vm_compute. reflexivity.
  - apply H2. intros [_ H]. apply email_test_shape in H. vm_compute in H. discriminate.
Defined.

(** ** The users table *)

Lemma exec_users (c : Command) (st : AppState) :
  match c with
  | RegisterUser fullName email =>
      if negb (not_string fullName) && RegExp.test email_regexp email
      then users (exec c st)
           = users st ++ [User.mk (uuid_tape (world st) (uuid_pos (world st)))
                                  fullName email
                                  (date_tape (world st) (date_pos (world st)))]
      else users (exec c st) = users st
  | _ => users (exec c st) = users st
  end.
Proof.
  destruct c as [fullName email | sku name price quantity | productId delta]; cbn [exec].
  - destruct (registerUser_decided fullName email st) as [Hyes Hno].
    unfold not_string. destruct (String.eqb fullName "") eqn:En; cbn [negb andb].
    + apply String.eqb_eq in En. destruct (Hno (or_introl En)) as (m & _ & ->). reflexivity.
    + apply String.eqb_neq in En. destruct (RegExp.test email_regexp email) eqn:Et.
      * rewrite (Hyes En eq_refl). reflexivity.
      * destruct (Hno (or_intror eq_refl)) as (m & _ & ->). reflexivity.
  - rewrite registerProduct_state. reflexivity.
  - apply adjustStock_general.
Qed.

(** X10. The users table only ever holds what the form lets through: if
    every user has a full name and an email of the shape [a@b.c] without
    whitespace, this is still so after any sequence of commands; in
    particular it holds of every state reached from an empty one. *)
Theorem users_stay_valid (cmds : list Command) (st : AppState) :
  Forall valid_user (users st) ->
  Forall valid_user (users (run cmds st)).
Proof.
  revert st. induction cmds as [|c cmds IH]; intros st H; [exact H|].
  unfold run. cbn [fold_left]. apply IH.
  pose proof (exec_users c st) as Hc.
  destruct c as [fullName email | sku name price quantity | productId delta];
    try (rewrite Hc; exact H).
  unfold not_string in Hc. destruct (String.eqb fullName "") eqn:En; cbn [negb andb] in Hc;
    [rewrite Hc; exact H|].
  destruct (RegExp.test email_regexp email) eqn:Et; rewrite Hc; [|exact H].
  apply Forall_app. split; [exact H|]. constructor; [|constructor].
  split; cbn; [apply String.eqb_neq, En | apply email_test_shape, Et].
Qed.

Lemma users_stay_valid_sample :
  Forall valid_user
    (users (run [RegisterUser "Ada" "ada@example.org"; RegisterUser "" "x@y.z";
                 RegisterUser "Bob" "bob at example.org"]
                (empty_state ∅ sample_world))).
Proof. apply users_stay_valid. constructor. Defined.

(** X11. The counters of the dashboard count the registrations: after a
    sequence of commands "Total Products" has grown by the number of product
    registrations in it, and "Registered Users" by the number of submissions
    the user form accepts; stock adjustments change neither. *)
Theorem dashboard_counts_registrations (cmds : list Command) (st : AppState) :
  Dashboard.totalProducts (products (run cmds st))
  = Dashboard.totalProducts (products st) + Z.of_nat (product_registrations cmds)
  /\ Dashboard.totalUsers (users (run cmds st))
     = Dashboard.totalUsers (users st) + Z.of_nat (user_registrations cmds).
Proof.
  unfold Dashboard.totalProducts, Dashboard.totalUsers, product_registrations,
    user_registrations.
  revert st. induction cmds as [|c cmds IH]; intros st; [cbn; lia|].
  unfold run. cbn [fold_left]. fold (run cmds (exec c st)).
  destruct (IH (exec c st)) as [IHp IHu]. rewrite IHp, IHu. clear IHp IHu IH.
  pose proof (exec_users c st) as Hu. cbn [List.filter].
  assert (Hp : length (products (exec c st))
               = (length (products st)
                  + match c with RegisterProduct _ _ _ _ => 1 | _ => 0 end)%nat).
  { destruct c as [fullName email | sku name price quantity | productId delta]; cbn [exec].
    - destruct (registerUser_outcome fullName email st) as [-> | ->]; cbn; lia.
    - rewrite registerProduct_state. cbn. rewrite length_app. reflexivity.
    - pose proof (adjustStock_keeps_ids st productId delta) as E.
      apply (f_equal length) in E. unfold product_ids in E.
      rewrite !length_fmap in E. lia. }
  destruct c as [fullName email | sku name price quantity | productId delta].
  - destruct (negb (not_string fullName) && RegExp.test email_regexp email);
      rewrite Hu, Hp; [rewrite length_app|]; cbn [length]; lia.
  - rewrite Hu, Hp. cbn [length]. lia.
  - rewrite Hu, Hp. cbn [length]. lia.
Qed.

(** ** The hook *)

(** X12. Two updates of one cell in one handler do not compose: each
    updater is applied to the value of the render, so the cell and the
    storage end up with what the last updater made of that value, whatever
    the first one did. *)
Theorem setValue_last_update_wins (rendered s : AppState) :
  (forall f g : list Transaction.t -> list Transaction.t,
     snd ((setTransactions rendered (fun v => ret (f v));;
           setTransactions rendered (fun v => ret (g v))) s)
     = snd (setTransactions rendered (fun v => ret (g v)) s)
     /\ transactions (snd (setTransactions rendered (fun v => ret (g v)) s))
        = g (transactions rendered))
  /\ (forall f g : list Product.t -> list Product.t,
        snd ((setProducts rendered (fun v => ret (f v));;
              setProducts rendered (fun v => ret (g v))) s)
        = snd (setProducts rendered (fun v => ret (g v)) s)
        /\ products (snd (setProducts rendered (fun v => ret (g v)) s))
           = g (products rendered))
  /\ (forall f g : list User.t -> list User.t,
        snd ((setUsers rendered (fun v => ret (f v));;
              setUsers rendered (fun v => ret (g v))) s)
        = snd (setUsers rendered (fun v => ret (g v)) s)
        /\ users (snd (setUsers rendered (fun v => ret (g v)) s))
           = g (users rendered)).
Proof.
  split; [|split]; intros f g; (split; [|reflexivity]);
    unfold setTransactions, setProducts, setUsers, setValue, bind, ret, modify,
      setItem, setStored_transactions, setStored_products, setStored_users;
    cbn; rewrite insert_insert_eq; reflexivity.
Qed.

(** X13. The effect that runs after mounting agrees with the initializer:
    it leaves the value the initializer produced as it is. It is idempotent,
    and when the storage is readable and the key holds a text that parses,
    the value after the effect is the parsed one whatever the state was. *)
Theorem mountEffect_agrees (w : Window.t) (key : string) :
  (forall initialValue : json,
     useLocalStorage.mountEffect w key (useLocalStorage.initialState w key initialValue)
     = useLocalStorage.initialState w key initialValue)
  /\ (forall stored : json,
        useLocalStorage.mountEffect w key (useLocalStorage.mountEffect w key stored)
        = useLocalStorage.mountEffect w key stored)
  /\ (forall (text : string) (v : json),
        Window.denied w = false -> Window.items w !! key = Some text ->
        text <> "" -> JSON.parse text = Some v ->
        forall stored : json, useLocalStorage.mountEffect w key stored = v).
Proof.
  unfold useLocalStorage.mountEffect, useLocalStorage.initialState, getItem, JSON_parse.
  split; [|split].
  - intros initialValue. destruct (Window.denied w); [reflexivity|]. cbn [and_then].
    destruct (Window.items w !! key) as [text|]; [|reflexivity].
    destruct (not_string text); [reflexivity|].
    destruct (JSON.parse text); reflexivity.
  - intros stored. destruct (Window.denied w); [reflexivity|]. cbn [and_then].
    destruct (Window.items w !! key) as [text|]; [|reflexivity].
    destruct (not_string text); [reflexivity|].
    destruct (JSON.parse text); reflexivity.
  - intros text v Hd Hi Hne Hp stored. rewrite Hd. cbn [and_then]. rewrite Hi.
    apply String.eqb_neq in Hne. unfold not_string. rewrite Hne, Hp. reflexivity.
Qed.

Lemma mountEffect_agrees_sample :
  useLocalStorage.mountEffect foreign_window "products" JNull = JObject [].
Proof.
  destruct (mountEffect_agrees foreign_window "products") as (_ & _ & H).
  apply (H "{}"); try (vm_compute; reflexivity). discriminate.
Defined.

(** ** Saving and loading the users *)

Lemma scan_plain c rest :
  Ascii.eqb c JSON.quote = false -> Ascii.eqb c JSON.backslash = false ->
  (nat_of_ascii c <? 32)%nat = false ->
  JSON.scan_string (c :: rest)
  = match JSON.scan_string rest with
    | Some (s, r) => Some (c :: s, r)
    | None => None
    end.
Proof. intros H1 H2 H3. cbn [JSON.scan_string]. rewrite H1, H2, H3. reflexivity. Qed.

Lemma scan_simple e rest :
  JSON.is_simple_escape e = true ->
  JSON.scan_string (JSON.backslash :: e :: rest)
  = match JSON.scan_string rest with
    | Some (s, r) => Some (JSON.backslash :: e :: s, r)
    | None => None
    end.
Proof. intros H. cbn [JSON.scan_string]. rewrite H. reflexivity. Qed.

Lemma scan_u h1 h2 h3 h4 rest :
  JSON.is_hex h1 && JSON.is_hex h2 && JSON.is_hex h3 && JSON.is_hex h4 = true ->
  JSON.scan_string (JSON.backslash :: "u"%char :: h1 :: h2 :: h3 :: h4 :: rest)
  = match JSON.scan_string rest with
    | Some (s, r) => Some (JSON.backslash :: "u"%char :: h1 :: h2 :: h3 :: h4 :: s, r)
    | None => None
    end.
Proof. intros H. cbn [JSON.scan_string]. rewrite H. reflexivity. Qed.

Lemma scan_quote_char c rest s r :
  JSON.scan_string rest = Some (s, r) ->
  JSON.scan_string (Stringify.quote_char c ++ rest) = Some (Stringify.quote_char c ++ s, r).
Proof.
  intros H.
  destruct c as [[] [] [] [] [] [] [] []];
    match goal with
    | |- context [Stringify.quote_char ?c] =>
        let x := eval vm_compute in (Stringify.quote_char c) in
        change (Stringify.quote_char c) with x
    end;
    cbn [app];
    first [ rewrite scan_plain by reflexivity
          | rewrite scan_simple by reflexivity
          | rewrite scan_u by reflexivity ];
    rewrite H; reflexivity.
Qed.

Lemma scan_escape s rest :
  JSON.scan_string (Stringify.escape s ++ JSON.quote :: rest)
  = Some (Stringify.escape s, rest).
Proof.
  unfold Stringify.escape. induction (list_ascii_of_string s) as [|c l IH]; cbn [flat_map].
  - reflexivity.
  - rewrite <- app_assoc. rewrite (scan_quote_char c _ _ _ IH). rewrite app_nil_r || reflexivity.
Qed.

Lemma unescape_quote_char c rest :
  Read.unescape (Stringify.quote_char c ++ rest) = option_map (cons c) (Read.unescape rest).
Proof. destruct c as [[] [] [] [] [] [] [] []]; reflexivity. Qed.

Lemma unescape_escape s :
  Read.unescape (Stringify.escape s) = Some (list_ascii_of_string s).
Proof.
  unfold Stringify.escape. induction (list_ascii_of_string s) as [|c l IH]; [reflexivity|].
  cbn [flat_map]. rewrite unescape_quote_char, IH. reflexivity.
Qed.

Lemma read_string_escape s :
  Read.string (Some (JString (string_of_list_ascii (Stringify.escape s)))) = Some s.
Proof.
  unfold Read.string. rewrite list_ascii_of_string_of_list_ascii, unescape_escape.
  cbn. rewrite string_of_list_ascii_of_string. reflexivity.
Qed.

Lemma parse_value_string n s rest :
  JSON.parse_value (S n) (Stringify.QuoteJSONString s ++ rest)
  = Some (JString (string_of_list_ascii (Stringify.escape s)), rest).
Proof.
  unfold Stringify.QuoteJSONString. cbn [JSON.parse_value app JSON.skip_ws].
  change (JSON.is_ws JSON.quote) with false. cbv iota.
  change (Ascii.eqb JSON.quote "{") with false.
  change (Ascii.eqb JSON.quote "[") with false.
  rewrite Ascii.eqb_refl. cbv iota. rewrite <- app_assoc. cbn [app].
  rewrite scan_escape. reflexivity.
Qed.

Lemma parse_members_head n k l :
  JSON.parse_members (S n) (Stringify.QuoteJSONString k ++ ":"%char :: l)
  = match JSON.parse_value n l with
    | Some (v, r3) =>
        let m := (string_of_list_ascii (Stringify.escape k), v) in
        match JSON.skip_ws r3 with
        | c' :: r4 =>
            if Ascii.eqb c' "," then
              match JSON.parse_members n r4 with
              | Some (ms, r5) => Some (m :: ms, r5)
              | None => None
              end
            else if Ascii.eqb c' "}" then Some ([m], r4)
            else None
        | [] => None
        end
    | None => None
    end.
Proof.
  unfold Stringify.QuoteJSONString. cbn [JSON.parse_members app JSON.skip_ws].
  change (JSON.is_ws JSON.quote) with false. cbv iota.
  rewrite Ascii.eqb_refl. cbv iota. rewrite <- app_assoc. cbn [app].
  rewrite scan_escape. cbn [JSON.skip_ws].
  change (JSON.is_ws ":") with false. cbv iota.
  change (Ascii.eqb ":" ":") with true. cbv iota. reflexivity.
Qed.

Lemma parse_members_properties props : forall n rest,
  props <> [] -> (length props <= n)%nat ->
  JSON.parse_members (S n)
    (Stringify.join "," (map Stringify.property props) ++ "}"%char :: rest)
  = Some (map property_tree props, rest).
Proof.
  induction props as [|[k v] props IH]; intros n rest Hne Hn; [contradiction|].
  destruct n as [|n]; [cbn in Hn; lia|].
  destruct props as [|kv2 props].
  - cbn [map Stringify.join]. unfold Stringify.property. cbn [fst snd].
    rewrite <- app_assoc. cbn [app]. rewrite parse_members_head.
    rewrite parse_value_string. reflexivity.
  - change (Stringify.join "," (map Stringify.property ((k, v) :: kv2 :: props)))
      with (Stringify.property (k, v)
            ++ ","%char :: Stringify.join "," (map Stringify.property (kv2 :: props))).
    unfold Stringify.property at 1. cbn [fst snd].
    rewrite <- !app_assoc. cbn [app]. rewrite parse_members_head.
    rewrite parse_value_string.
    cbn [JSON.skip_ws]. change (JSON.is_ws ",") with false. cbv iota.
    change (Ascii.eqb "," ",") with true. cbv iota.
    rewrite IH by (try discriminate; cbn in *; lia). reflexivity.
Qed.

Lemma parse_value_object props n rest :
  props <> [] -> (length props <= n)%nat ->
  JSON.parse_value (S (S n)) (Stringify.object props ++ rest)
  = Some (JObject (map property_tree props), rest).
Proof.
  intros Hne Hn. unfold Stringify.object.
  cbn [app JSON.parse_value JSON.skip_ws].
  change (JSON.is_ws "{") with false. cbv iota.
  change (Ascii.eqb "{" "{") with true. cbv iota.
  rewrite <- app_assoc. cbn [app].
  rewrite parse_members_properties by assumption.
  destruct props as [|[k v] props]; [contradiction|].
  assert (Hq : exists l, Stringify.join "," (map Stringify.property ((k, v) :: props))
                    ++ "}"%char :: rest = JSON.quote :: l).
  { destruct props; cbn; eexists; reflexivity. }
  destruct Hq as [l ->]. cbn [JSON.skip_ws].
  change (JSON.is_ws JSON.quote) with false. cbv iota.
  change (Ascii.eqb JSON.quote "}") with false. cbv iota. reflexivity.
Qed.

Lemma parse_value_User u n rest :
  (6 <= n)%nat ->
  JSON.parse_value n (Stringify.user u ++ rest) = Some (User_tree u, rest).
Proof.
  intros Hn. destruct n as [|[|n]]; try lia.
  unfold Stringify.user, User_tree. apply parse_value_object; [discriminate | cbn; lia].
Qed.

Lemma parse_elements_users l : forall n rest,
  l <> [] -> (length l + 6 <= n)%nat ->
  JSON.parse_elements n (Stringify.join "," (map Stringify.user l) ++ "]"%char :: rest)
  = Some (map User_tree l, rest).
Proof.
  induction l as [|u l IH]; intros n rest Hne Hn; [contradiction|].
  destruct n as [|n]; [lia|]. cbn [length] in Hn.
  destruct l as [|u2 l].
  - cbn [map Stringify.join JSON.parse_elements].
    rewrite parse_value_User by lia. cbn [JSON.skip_ws].
    change (JSON.is_ws "]") with false. cbv iota.
    change (Ascii.eqb "]" ",") with false. change (Ascii.eqb "]" "]") with true.
    cbv iota. reflexivity.
  - change (Stringify.join "," (map Stringify.user (u :: u2 :: l)))
      with (Stringify.user u ++ ","%char :: Stringify.join "," (map Stringify.user (u2 :: l))).
    rewrite <- app_assoc. cbn [app JSON.parse_elements].
    rewrite parse_value_User by (cbn in Hn; lia). cbn [JSON.skip_ws].
    change (JSON.is_ws ",") with false. cbv iota.
    change (Ascii.eqb "," ",") with true. cbv iota.
    rewrite IH by (try discriminate; cbn in *; lia). reflexivity.
Qed.

Lemma parse_users (l : list User.t) :
  JSON.parse (Stringify.users l) = Some (JArray (map User_tree l)).
Proof.
  apply (parse_fuel_enough _ (length l + 8) _ []); [|reflexivity].
  unfold Stringify.users. rewrite list_ascii_of_string_of_list_ascii.
  unfold Stringify.array. replace (length l + 8)%nat with (S (length l + 7)) by lia.
  cbn [JSON.parse_value JSON.skip_ws]. change (JSON.is_ws "[") with false. cbv iota.
  change (Ascii.eqb "[" "{") with false. change (Ascii.eqb "[" "[") with true. cbv iota.
  destruct l as [|u l].
  - reflexivity.
  - assert (Hq : exists t, Stringify.join "," (map Stringify.user (u :: l)) ++ ["]"%char]
                      = "{"%char :: t).
    { destruct l; cbn; eexists; reflexivity. }
    destruct Hq as [t Ht]. rewrite Ht at 1. cbn [JSON.skip_ws].
    change (JSON.is_ws "{") with false. cbv iota.
    change (Ascii.eqb "{" "]") with false. cbv iota.
    rewrite parse_elements_users by (try discriminate; cbn; lia). reflexivity.
Qed.

Lemma User_tree_members (a b c d : json) :
  let ms := [("id", a); ("fullName", b); ("email", c); ("createdAt", d)] in
  member "id" ms = Some a /\ member "fullName" ms = Some b
  /\ member "email" ms = Some c /\ member "createdAt" ms = Some d.
Proof. repeat split; reflexivity. Qed.

Lemma read_User_tree u : Read.user (User_tree u) = Some u.
Proof.
  unfold User_tree, Read.user. cbn [map]. unfold property_tree. cbn [fst snd].
  change (string_of_list_ascii (Stringify.escape "id")) with "id".
  change (string_of_list_ascii (Stringify.escape "fullName")) with "fullName".
  change (string_of_list_ascii (Stringify.escape "email")) with "email".
  change (string_of_list_ascii (Stringify.escape "createdAt")) with "createdAt".
  match goal with
  | |- context [member "id" [("id", ?a); ("fullName", ?b); ("email", ?c); ("createdAt", ?d)]] =>
      destruct (User_tree_members a b c d) as (-> & -> & -> & ->)
  end.
  rewrite !read_string_escape. destruct u; reflexivity.
Qed.

Lemma read_users_tree l : Read.users (JArray (map User_tree l)) = Some l.
Proof.
  cbn [Read.users]. induction l as [|u l IH]; [reflexivity|].
  cbn [map Read.all]. rewrite read_User_tree, IH. reflexivity.
Qed.

(** X14. Saving and loading the users is a round trip: the text
    [JSON.stringify] writes for a users table parses, to an array of the
    expected layout, and reads back as the same users, field for field,
    whatever characters the strings hold. So a storage that is readable
    returns, through the hook, the users that were saved in it, and saving
    the users changes what is loaded under no other key. *)
Theorem users_round_trip (l : list User.t) (w : Window.t) (initialValue : json) :
  (exists v : json,
     JSON.parse (Stringify.users l) = Some v
     /\ has_expected_layout "users" v = true
     /\ Read.users v = Some l)
  /\ (Window.denied w = false ->
        Read.users (useLocalStorage.load (save_users l w) "users" initialValue) = Some l)
  /\ (forall key : string,
        key <> "users" ->
        useLocalStorage.load (save_users l w) key initialValue
        = useLocalStorage.load w key initialValue).
Proof.
  split; [|split].
  - exists (JArray (map User_tree l)). split; [apply parse_users|].
    split; [|apply read_users_tree].
    cbn [has_expected_layout String.eqb Ascii.eqb Bool.eqb is_array_of].
    apply forallb_forall. intros v Hv. apply in_map_iff in Hv as (u & <- & _).
    unfold User_tree, is_User. cbn [map]. unfold property_tree. cbn [fst snd].
    change (string_of_list_ascii (Stringify.escape "id")) with "id".
    change (string_of_list_ascii (Stringify.escape "fullName")) with "fullName".
    change (string_of_list_ascii (Stringify.escape "email")) with "email".
    change (string_of_list_ascii (Stringify.escape "createdAt")) with "createdAt".
    match goal with
    | |- context [member "id" [("id", ?a); ("fullName", ?b); ("email", ?c);
                               ("createdAt", ?d)]] =>
        destruct (User_tree_members a b c d) as (-> & -> & -> & ->)
    end.
    reflexivity.
  - intros Hd. rewrite load_cases. unfold save_users. rewrite Hd.
    cbn [Window.denied Window.items]. rewrite lookup_insert_eq.
    assert (Hne : not_string (Stringify.users l) = false).
    { unfold Stringify.users, Stringify.array. reflexivity. }
    rewrite Hne, parse_users. apply read_users_tree.
  - intros key Hkey. rewrite !load_cases. unfold save_users.
    destruct (Window.denied w) eqn:Hd; [rewrite Hd; reflexivity|].
    cbn [Window.denied Window.items].
    rewrite lookup_insert_ne by (intros E; apply Hkey; symmetry; exact E).
    reflexivity.
Qed.

Lemma users_round_trip_sample :
  Read.users
    (useLocalStorage.load
       (save_users [User.mk "u-1" "Ada" "ada@example.org" "t"] garbled_window)
       "users" (JArray []))
  = Some [User.mk "u-1" "Ada" "ada@example.org" "t"].
Proof.
  destruct (users_round_trip [User.mk "u-1" "Ada" "ada@example.org" "t"]
              garbled_window (JArray [])) as (_ & H & _).
  apply H. reflexivity.
Defined.
